(** * Smart-Query: SQL safety gate, in-memory store and request handlers

    A shallow embedding of the server side of the repository:
    - [server/services/openai.ts]   : [validateSQLQuery], [generateSQLFromNaturalLanguage]
    - [server/services/database.ts] : [SQLServerConnection], [PostgreSQLConnection], [DatabaseManager]
    - [server/storage.ts]           : [MemStorage]
    - [server/routes.ts]            : the Express handlers of [registerRoutes]

    JavaScript strings are sequences of UTF-16 code units; the handlers are
    written in a state-and-exception monad over a [World] that holds the
    store, the connection objects and a trace of the calls made to the
    external collaborators. *)

From Stdlib Require Import ZArith NArith String Ascii List Bool Lia.
From Stdlib Require Import DecimalString Sorted Permutation.
Import ListNotations.

Set Implicit Arguments.

Local Open Scope Z_scope.

(* ================================================================= *)
(** ** JavaScript values and strings *)

Module JS.

(** A JavaScript string: its UTF-16 code units. *)
Definition jsstring := list N.

(** An ASCII literal of the source as a [jsstring]. *)
Definition lit (s : string) : jsstring :=
  map N_of_ascii (list_ascii_of_string s).

Definition jsstring_eqb (a b : jsstring) : bool :=
  if list_eq_dec N.eq_dec a b then true else false.

(** The values a request body field or a row cell may hold.  [VObject]
    stands for any non-primitive; numbers are the integer-valued ones. *)
Inductive JsValue :=
| VUndefined
| VNull
| VBool (b : bool)
| VNumber (z : Z)
| VString (s : jsstring)
| VObject.

(** ECMAScript [ToBoolean]. *)
Definition ToBoolean (v : JsValue) : bool :=
  match v with
  | VUndefined | VNull => false
  | VBool b => b
  | VNumber z => negb (z =? 0)
  | VString s => match s with [] => false | _ => true end
  | VObject => true
  end.

(** What a [throw] carries.  [ZodError] is a subclass of [Error]. *)
Inductive Thrown :=
| ZodError (issues : jsstring)
| Error (message : jsstring)
| NonError (v : JsValue).

Definition instanceofError (e : Thrown) : bool :=
  match e with NonError _ => false | _ => true end.

Definition instanceofZodError (e : Thrown) : bool :=
  match e with ZodError _ => true | _ => false end.

Definition message (e : Thrown) : jsstring :=
  match e with
  | ZodError issues => issues
  | Error m => m
  | NonError _ => []
  end.

(** Result of an expression that may throw. *)
Inductive Exc (A : Type) :=
| Ok (a : A)
| Raise (e : Thrown).
Arguments Ok {A} a.
Arguments Raise {A} e.

(** A settled promise, as an [async] function returns it. *)
Inductive Promise (A : Type) :=
| Resolved (a : A)
| Rejected (e : Thrown).
Arguments Resolved {A} a.
Arguments Rejected {A} e.

(** [ToBoolean] of a promise object: every object is truthy. *)
Definition ToBoolean_Promise {A} (p : Promise A) : bool := true.

(** *** String methods *)

(** WhiteSpace and LineTerminator code units, as [String.prototype.trim]
    strips them. *)
Definition isWhiteSpace (c : N) : bool :=
  (existsb (N.eqb c)
     [9; 10; 11; 12; 13; 32; 160; 5760; 8232; 8233; 8239; 8287; 12288; 65279]
   || ((8192 <=? c) && (c <=? 8202)))%N.

Fixpoint trimStart (s : jsstring) : jsstring :=
  match s with
  | c :: s' => if isWhiteSpace c then trimStart s' else s
  | [] => []
  end.

Definition trimEnd (s : jsstring) : jsstring := rev (trimStart (rev s)).

Definition trim (s : jsstring) : jsstring := trimEnd (trimStart s).

(** [s.startsWith(p)] *)
Fixpoint startsWith (s p : jsstring) {struct p} : bool :=
  match p, s with
  | [], _ => true
  | c :: p', d :: s' => N.eqb c d && startsWith s' p'
  | _ :: _, [] => false
  end.

(** [s.includes(p)] *)
Fixpoint includes (s p : jsstring) : bool :=
  startsWith s p
  || match s with
     | [] => false
     | _ :: s' => includes s' p
     end.

(** A token whose first and last code units are not blanks. *)
Definition solidEdges (token : jsstring) : bool :=
  match token, rev token with
  | c :: _, d :: _ => negb (isWhiteSpace c) && negb (isWhiteSpace d)
  | _, _ => false
  end.

(** [Number.prototype.toString] on an integer-valued number. *)
Definition numberToString (z : Z) : jsstring :=
  lit (NilZero.string_of_int (Z.to_int z)).

(** ASCII-only case mappings: what [toUpperCase] and [toLowerCase] do on
    strings whose code units are all below 128. *)
Definition asciiUpper (c : N) : N :=
  (if (97 <=? c) && (c <=? 122) then c - 32 else c)%N.
Definition asciiLower (c : N) : N :=
  (if (65 <=? c) && (c <=? 90) then c + 32 else c)%N.

End JS.
Import JS.

(** A row of a result set: column name to value. *)
Definition Row := list (jsstring * JsValue).

(** The integer part of a [number] as [Array.prototype.slice] reads it
    ([ToIntegerOrInfinity]), with [NaN] kept apart. *)
Inductive JsNumber :=
| NaN
| Int (z : Z)
| PosInfinity
| NegInfinity.

(* ================================================================= *)
(** ** server/services/openai.ts : the safety validator *)

Section Validator.

Variable toUpperCase : jsstring -> jsstring.

(** [sql.toUpperCase()] on an arbitrary value: a method call on a
    non-string throws a [TypeError]. *)
Definition call_toUpperCase (sql : JsValue) : Exc jsstring :=
  match sql with
  | VString s => Ok (toUpperCase s)
  | _ => Raise (Error (lit "sql.toUpperCase is not a function"))
  end.

Definition dangerousKeywords : list jsstring :=
  map lit ["INSERT"; "UPDATE"; "DELETE"; "DROP"; "CREATE"; "ALTER";
           "TRUNCATE"; "EXEC"; "EXECUTE"; "SP_"; "XP_"]%string.

(** The [for ... of] loop over the keywords, with its early [return false]. *)
Fixpoint noneIncluded (upperSQL : jsstring) (keywords : list jsstring) : bool :=
  match keywords with
  | [] => true
  | keyword :: rest =>
      if includes upperSQL keyword then false else noneIncluded upperSQL rest
  end.

(** The body of the [try] block. *)
Definition validateSQLQuery_try (sql : JsValue) : Exc bool :=
  match call_toUpperCase sql with
  | Raise e => Raise e
  | Ok upper =>
      let upperSQL := trim upper in
      if negb (startsWith upperSQL (lit "SELECT")) then Ok false
      else Ok (noneIncluded upperSQL dangerousKeywords)
  end.

(** [export async function validateSQLQuery(sql): Promise<boolean>] *)
Definition validateSQLQuery (sql : JsValue) : Promise bool :=
  match validateSQLQuery_try sql with
  | Ok b => Resolved b
  | Raise _ => Resolved false
  end.

(** *** The policy in the words of the specification *)

Definition begins_with (text token : jsstring) : Prop :=
  exists rest, text = token ++ rest.

Definition contains_substring (text token : jsstring) : Prop :=
  exists before after, text = before ++ token ++ after.

(** Uppercased and trimmed text begins with SELECT, and the uppercased
    text contains none of the denylisted tokens. *)
Definition isSafe_spec (sql : jsstring) : Prop :=
  begins_with (trim (toUpperCase sql)) (lit "SELECT")
  /\ forall token,
       In token (map lit ["INSERT"; "UPDATE"; "DELETE"; "DROP"; "CREATE";
                          "ALTER"; "TRUNCATE"; "EXEC"; "EXECUTE"; "SP_";
                          "XP_"]%string) ->
       ~ contains_substring (toUpperCase sql) token.

End Validator.

(* ================================================================= *)
(** ** shared/schema.ts : records *)

Record DatabaseConfig := mkDatabaseConfig {
  cfg_id : Z;
  cfg_name : jsstring;
  cfg_type : jsstring;
  cfg_connectionString : jsstring;
  cfg_isActive : option bool;          (* boolean | null *)
  cfg_createdAt : option Z             (* Date | null, in ms *)
}.

(** [InsertDatabaseConfig]: [isActive] is optional and nullable; [None] is
    [null] or [undefined]. *)
Record InsertDatabaseConfig := mkInsertDatabaseConfig {
  ins_name : jsstring;
  ins_type : jsstring;
  ins_connectionString : jsstring;
  ins_isActive : option bool
}.

(** [Partial<InsertDatabaseConfig>]: a key is absent ([None]) or present;
    a present [isActive] may still be [null]. *)
Record PartialInsertDatabaseConfig := mkPartialInsertDatabaseConfig {
  part_name : option jsstring;
  part_type : option jsstring;
  part_connectionString : option jsstring;
  part_isActive : option (option bool)
}.

Record QueryHistory := mkQueryHistory {
  qh_id : Z;
  qh_naturalQuery : jsstring;
  qh_generatedSql : jsstring;
  qh_executionTime : option Z;
  qh_rowCount : option Z;
  qh_status : jsstring;
  qh_errorMessage : option jsstring;
  qh_results : option (list Row);
  qh_createdAt : Z
}.

Record InsertQueryHistory := mkInsertQueryHistory {
  iqh_naturalQuery : jsstring;
  iqh_generatedSql : jsstring;
  iqh_status : jsstring;
  iqh_errorMessage : option jsstring;
  iqh_executionTime : option Z;
  iqh_rowCount : option Z;
  iqh_results : option (list Row)
}.

(** [if (x)] on a [boolean | null | undefined]. *)
Definition truthy (b : option bool) : bool :=
  match b with Some true => true | _ => false end.

(** [x ?? d] *)
Definition nullish {A} (x : option A) (d : A) : A :=
  match x with Some a => a | None => d end.

(** [naturalLanguageQuerySchema]: [z.object({ query: z.string().min(1).max(500) })] *)
Definition naturalLanguageQuerySchema_parse (query : JsValue) : Exc jsstring :=
  match query with
  | VString s =>
      if (1 <=? length s)%nat && (length s <=? 500)%nat then Ok s
      else Raise (ZodError (lit "query: length out of range"))
  | _ => Raise (ZodError (lit "query: expected string"))
  end.

(* ================================================================= *)
(** ** A JavaScript [Map<number, V>]: insertion-ordered *)

Module JsMap.

Definition t (V : Type) := list (Z * V).

Fixpoint get {V} (m : t V) (k : Z) : option V :=
  match m with
  | [] => None
  | (k', v) :: m' => if k' =? k then Some v else get m' k
  end.

(** [set] keeps the position of an existing key and appends a new one. *)
Fixpoint set {V} (m : t V) (k : Z) (v : V) : t V :=
  match m with
  | [] => [(k, v)]
  | (k', v') :: m' => if k' =? k then (k, v) :: m' else (k', v') :: set m' k v
  end.

Definition values {V} (m : t V) : list V := map snd m.

Definition keys {V} (m : t V) : list Z := map fst m.

(** Assignment to a field of every stored object, through its reference. *)
Definition mutate {V} (f : V -> V) (m : t V) : t V :=
  map (fun kv => (fst kv, f (snd kv))) m.

End JsMap.

(* ================================================================= *)
(** ** server/storage.ts : MemStorage *)

Record MemStorage := mkMemStorage {
  databaseConfigs : JsMap.t DatabaseConfig;
  queryHistory : JsMap.t QueryHistory;
  currentConfigId : Z;
  currentHistoryId : Z
}.

(** [process.env.DATABASE_URL || "postgresql://localhost:5432/sample"] *)
Definition defaultConnectionString (DATABASE_URL : option jsstring) : jsstring :=
  match DATABASE_URL with
  | Some (c :: s) => c :: s
  | _ => lit "postgresql://localhost:5432/sample"
  end.

(** The field initialisers followed by the constructor body. *)
Definition MemStorage_new (DATABASE_URL : option jsstring) (now : Z) : MemStorage :=
  {| databaseConfigs :=
       JsMap.set [] 1
         {| cfg_id := 1;
            cfg_name := lit "Default PostgreSQL";
            cfg_type := lit "postgresql";
            cfg_connectionString := defaultConnectionString DATABASE_URL;
            cfg_isActive := Some true;
            cfg_createdAt := Some now |};
     queryHistory := [];
     currentConfigId := 2;
     currentHistoryId := 1 |}.

Definition getDatabaseConfig (st : MemStorage) (id : Z) : option DatabaseConfig :=
  JsMap.get st.(databaseConfigs) id.

Definition getActiveDatabaseConfig (st : MemStorage) : option DatabaseConfig :=
  find (fun config => truthy config.(cfg_isActive))
       (JsMap.values st.(databaseConfigs)).

Definition setInactive (c : DatabaseConfig) : DatabaseConfig :=
  {| cfg_id := c.(cfg_id);
     cfg_name := c.(cfg_name);
     cfg_type := c.(cfg_type);
     cfg_connectionString := c.(cfg_connectionString);
     cfg_isActive := Some false;
     cfg_createdAt := c.(cfg_createdAt) |}.

Definition createDatabaseConfig (st : MemStorage) (config : InsertDatabaseConfig)
    (now : Z) : DatabaseConfig * MemStorage :=
  let id := st.(currentConfigId) in
  let newConfig :=
    {| cfg_id := id;
       cfg_name := config.(ins_name);
       cfg_type := config.(ins_type);
       cfg_connectionString := config.(ins_connectionString);
       cfg_isActive := Some (nullish config.(ins_isActive) false);
       cfg_createdAt := Some now |} in
  let existing :=
    if truthy config.(ins_isActive)
    then JsMap.mutate setInactive st.(databaseConfigs)
    else st.(databaseConfigs) in
  (newConfig,
   {| databaseConfigs := JsMap.set existing id newConfig;
      queryHistory := st.(queryHistory);
      currentConfigId := id + 1;
      currentHistoryId := st.(currentHistoryId) |}).

(** [{ ...existing, ...config }] *)
Definition spread (existing : DatabaseConfig) (config : PartialInsertDatabaseConfig)
    : DatabaseConfig :=
  {| cfg_id := existing.(cfg_id);
     cfg_name := nullish config.(part_name) existing.(cfg_name);
     cfg_type := nullish config.(part_type) existing.(cfg_type);
     cfg_connectionString :=
       nullish config.(part_connectionString) existing.(cfg_connectionString);
     cfg_isActive := nullish config.(part_isActive) existing.(cfg_isActive);
     cfg_createdAt := existing.(cfg_createdAt) |}.

Definition updateDatabaseConfig (st : MemStorage) (id : Z)
    (config : PartialInsertDatabaseConfig) : option DatabaseConfig * MemStorage :=
  match JsMap.get st.(databaseConfigs) id with
  | None => (None, st)
  | Some existing =>
      let updated := spread existing config in
      let others :=
        if truthy (nullish config.(part_isActive) None)
        then JsMap.mutate
               (fun existingConfig =>
                  if negb (existingConfig.(cfg_id) =? id)
                  then setInactive existingConfig else existingConfig)
               st.(databaseConfigs)
        else st.(databaseConfigs) in
      (Some updated,
       {| databaseConfigs := JsMap.set others id updated;
          queryHistory := st.(queryHistory);
          currentConfigId := st.(currentConfigId);
          currentHistoryId := st.(currentHistoryId) |})
  end.

(** [Array.prototype.sort] with the comparator
    [(a, b) => b.createdAt - a.createdAt]: a stable sort, [a] stays before
    [b] unless [b] is strictly more recent. *)
Fixpoint insertByCreatedAt (x : QueryHistory) (l : list QueryHistory)
    : list QueryHistory :=
  match l with
  | [] => [x]
  | y :: l' =>
      if y.(qh_createdAt) <=? x.(qh_createdAt) then x :: y :: l'
      else y :: insertByCreatedAt x l'
  end.

Fixpoint sortByCreatedAtDesc (l : list QueryHistory) : list QueryHistory :=
  match l with
  | [] => []
  | x :: l' => insertByCreatedAt x (sortByCreatedAtDesc l')
  end.

(** [a.slice(0, end)] *)
Definition slice0 {A} (a : list A) (end_ : JsNumber) : list A :=
  let len := Z.of_nat (length a) in
  let final :=
    match end_ with
    | NaN => 0
    | NegInfinity => 0
    | PosInfinity => len
    | Int relativeEnd =>
        if relativeEnd <? 0 then Z.max (len + relativeEnd) 0
        else Z.min relativeEnd len
    end in
  firstn (Z.to_nat final) a.

(** [getQueryHistory(limit: number = 50)]: [None] is an omitted argument. *)
Definition getQueryHistory (st : MemStorage) (limit : option JsNumber)
    : list QueryHistory :=
  let limit := nullish limit (Int 50) in
  slice0 (sortByCreatedAtDesc (JsMap.values st.(queryHistory))) limit.

Definition createQueryHistoryEntry (st : MemStorage) (entry : InsertQueryHistory)
    (now : Z) : QueryHistory * MemStorage :=
  let id := st.(currentHistoryId) in
  let newEntry :=
    {| qh_id := id;
       qh_naturalQuery := entry.(iqh_naturalQuery);
       qh_generatedSql := entry.(iqh_generatedSql);
       qh_executionTime := entry.(iqh_executionTime);
       qh_rowCount := entry.(iqh_rowCount);
       qh_status := entry.(iqh_status);
       qh_errorMessage := entry.(iqh_errorMessage);
       qh_results := entry.(iqh_results);
       qh_createdAt := now |} in
  (newEntry,
   {| databaseConfigs := st.(databaseConfigs);
      queryHistory := JsMap.set st.(queryHistory) id newEntry;
      currentConfigId := st.(currentConfigId);
      currentHistoryId := id + 1 |}).

Definition clearQueryHistory (st : MemStorage) : MemStorage :=
  {| databaseConfigs := st.(databaseConfigs);
     queryHistory := [];
     currentConfigId := st.(currentConfigId);
     currentHistoryId := st.(currentHistoryId) |}.

(** The store's operations as data, to speak of every state a sequence of
    calls can reach. *)
Inductive StorageCall :=
| CallCreateDatabaseConfig (config : InsertDatabaseConfig) (now : Z)
| CallUpdateDatabaseConfig (id : Z) (config : PartialInsertDatabaseConfig)
| CallCreateQueryHistoryEntry (entry : InsertQueryHistory) (now : Z)
| CallClearQueryHistory.

Definition call (st : MemStorage) (c : StorageCall) : MemStorage :=
  match c with
  | CallCreateDatabaseConfig config now => snd (createDatabaseConfig st config now)
  | CallUpdateDatabaseConfig id config => snd (updateDatabaseConfig st id config)
  | CallCreateQueryHistoryEntry entry now => snd (createQueryHistoryEntry st entry now)
  | CallClearQueryHistory => clearQueryHistory st
  end.

Definition calls (st : MemStorage) (cs : list StorageCall) : MemStorage :=
  fold_left call cs st.

(** The stored configurations that are active, in map order. *)
Definition activeConfigs (m : JsMap.t DatabaseConfig) : list DatabaseConfig :=
  filter (fun config => truthy config.(cfg_isActive)) (JsMap.values m).

(** How many stored configurations are active. *)
Definition activeCount (st : MemStorage) : nat :=
  List.length (activeConfigs st.(databaseConfigs)).

(** [a] is listed before [b] only if [b] is not more recent. *)
Definition newerFirst (a b : QueryHistory) : Prop :=
  b.(qh_createdAt) <= a.(qh_createdAt).

(** Keys are distinct and each object sits under its own [id]. *)
Definition keyed (st : MemStorage) : Prop :=
  NoDup (JsMap.keys st.(databaseConfigs))
  /\ Forall (fun kv => (snd kv).(cfg_id) = fst kv) st.(databaseConfigs).

(* ================================================================= *)
(** ** The world outside the handlers *)

(** The fields of the parsed model answer that [generateSQLFromNaturalLanguage]
    reads; an absent field is [None]. *)
Record LlmJson := mkLlmJson {
  json_sql : option jsstring;
  json_explanation : option jsstring
}.

Record SQLGenerationResult := mkSQLGenerationResult {
  sql : jsstring;
  explanation : jsstring
}.

(** What [request.query] of mssql resolves to. *)
Record MssqlResult := mkMssqlResult {
  mssql_recordset : option (list Row);
  mssql_rowsAffected : option (list Z)
}.

(** What [pool.query] of pg resolves to. *)
Record PgResult := mkPgResult {
  pg_rows : option (list Row);
  pg_rowCount : option Z
}.

(** The return value of [DatabaseConnection.executeQuery]. *)
Record QueryResult := mkQueryResult {
  recordset : list Row;
  rowsAffected : list Z;
  executionTime : Z
}.

(** Built-ins defined by the Unicode tables or the number grammar, and the
    collaborators outside the process: clock, model, drivers.  The drivers
    are asked per connection object (its number) and statement.
    [schemaText] is the fold of lines 45-62 of routes.ts over the rows of
    the schema query; its result only feeds the prompt. *)
Record Env := mkEnv {
  toUpperCase : jsstring -> jsstring;
  toLowerCase : jsstring -> jsstring;
  parseInt : jsstring -> JsNumber;
  clock : nat -> Z;
  DATABASE_URL : option jsstring;
  llm : jsstring -> jsstring -> jsstring -> Exc LlmJson;
  mssql_connect : nat -> Exc unit;
  mssql_query : nat -> jsstring -> Exc MssqlResult;
  mssql_close : nat -> Exc unit;
  pg_query : nat -> jsstring -> Exc PgResult;
  pg_end : nat -> Exc unit;
  schemaText : list Row -> jsstring
}.

Inductive BackendKind := SQLServer | PostgreSQL.

(** A connection object: its class, the string it was built from and
    whether its [pool] field is non-null. *)
Record Connection := mkConnection {
  conn_kind : BackendKind;
  conn_connectionString : JsValue;
  conn_pool : bool
}.

(** Calls that leave the handler. *)
Inductive Event :=
| EvGenerate (naturalQuery databaseType tableSchema : jsstring)
| EvCreateConnection (h : nat) (kind : BackendKind)
| EvExecuteQuery (h : nat) (query : jsstring)
| EvTestConnection (h : nat)
| EvClose (h : nat).

Record World := mkWorld {
  storage : MemStorage;
  reads : nat;                      (* clock readings taken so far *)
  connections : list Connection;    (* connection objects, by number *)
  trace : list Event
}.

(** The JSON bodies the handlers send. *)
Inductive Body :=
| BMessage (message : jsstring)
| BInvalid (message : jsstring) (errors : jsstring)
| BExecution (naturalQuery generatedSql : jsstring) (results : list Row)
             (executionTime rowCount : Z) (status : jsstring)
| BFailure (message generatedSql : jsstring)
| BTest (success : bool) (message : jsstring)
| BHistory (history : list QueryHistory)
| BCleared (message : jsstring).

Record Response := mkResponse {
  status : Z;
  body : Body
}.

(** The [success] field of a body, when it has one. *)
Definition body_success (b : Body) : option bool :=
  match b with
  | BTest success _ => Some success
  | _ => None
  end.

(** The [message] field of a body, when it has one. *)
Definition body_message (b : Body) : option jsstring :=
  match b with
  | BMessage m | BInvalid m _ | BFailure m _ | BTest _ m | BCleared m => Some m
  | BExecution _ _ _ _ _ _ | BHistory _ => None
  end.

(* ================================================================= *)
(** ** Computations: state over [World], with exceptions *)

Definition M (A : Type) := World -> Exc A * World.

Definition ret {A} (a : A) : M A := fun w => (Ok a, w).

Definition raise {A} (e : Thrown) : M A := fun w => (Raise e, w).

Definition bind {A B} (m : M A) (k : A -> M B) : M B :=
  fun w =>
    match m w with
    | (Ok a, w') => k a w'
    | (Raise e, w') => (Raise e, w')
    end.

(** [try { m } catch (e) { handler(e) }] *)
Definition tryCatch {A} (m : M A) (handler : Thrown -> M A) : M A :=
  fun w =>
    match m w with
    | (Ok a, w') => (Ok a, w')
    | (Raise e, w') => handler e w'
    end.

Definition liftExc {A} (x : Exc A) : M A := fun w => (x, w).

Notation "x <- m ;; k" := (bind m (fun x => k))
  (at level 61, m at next level, right associativity).
Notation "m ;;; k" := (bind m (fun _ => k))
  (at level 61, right associativity).

Definition emit (ev : Event) : M unit :=
  fun w =>
    (Ok tt,
     {| storage := w.(storage); reads := w.(reads);
        connections := w.(connections); trace := w.(trace) ++ [ev] |}).

Definition setStorage (st : MemStorage) (w : World) : World :=
  {| storage := st; reads := w.(reads);
     connections := w.(connections); trace := w.(trace) |}.

Definition setConnections (cs : list Connection) (w : World) : World :=
  {| storage := w.(storage); reads := w.(reads);
     connections := cs; trace := w.(trace) |}.

(** [cs[h].pool = p] *)
Fixpoint setPoolAt (cs : list Connection) (h : nat) (p : bool) : list Connection :=
  match cs, h with
  | [], _ => []
  | c :: cs', O =>
      {| conn_kind := c.(conn_kind);
         conn_connectionString := c.(conn_connectionString);
         conn_pool := p |} :: cs'
  | c :: cs', S h' => c :: setPoolAt cs' h' p
  end.

Definition poolAt (cs : list Connection) (h : nat) : bool :=
  match nth_error cs h with
  | Some c => c.(conn_pool)
  | None => false
  end.

Definition kindAt (cs : list Connection) (h : nat) : BackendKind :=
  match nth_error cs h with
  | Some c => c.(conn_kind)
  | None => PostgreSQL
  end.

Section Server.

Variable E : Env.

(** [Date.now()], and the reading behind [new Date()]. *)
Definition Date_now : M Z :=
  fun w =>
    (Ok (E.(clock) w.(reads)),
     {| storage := w.(storage); reads := S w.(reads);
        connections := w.(connections); trace := w.(trace) |}).

(** *** The module-level [storage] object, through its async methods *)

Definition storage_getActiveDatabaseConfig : M (option DatabaseConfig) :=
  fun w => (Ok (getActiveDatabaseConfig w.(storage)), w).

Definition storage_getQueryHistory (limit : option JsNumber) : M (list QueryHistory) :=
  fun w => (Ok (getQueryHistory w.(storage) limit), w).

Definition storage_createQueryHistoryEntry (entry : InsertQueryHistory)
    : M QueryHistory :=
  now <- Date_now ;;
  fun w =>
    let (newEntry, st) := createQueryHistoryEntry w.(storage) entry now in
    (Ok newEntry, setStorage st w).

Definition storage_clearQueryHistory : M unit :=
  fun w => (Ok tt, setStorage (clearQueryHistory w.(storage)) w).

(** *** server/services/openai.ts : the generator *)

(** [x || ''] on an optional string. *)
Definition orEmpty (x : option jsstring) : jsstring := nullish x [].

Definition generateSQLFromNaturalLanguage
    (naturalQuery databaseType tableSchema : jsstring) : M SQLGenerationResult :=
  emit (EvGenerate naturalQuery databaseType tableSchema) ;;;
  match E.(llm) naturalQuery databaseType tableSchema with
  | Ok result =>
      ret {| sql := orEmpty result.(json_sql);
             explanation := orEmpty result.(json_explanation) |}
  | Raise error =>
      raise (Error (lit "Failed to generate SQL: "
                    ++ (if instanceofError error then message error
                        else lit "Unknown error")))
  end.

(** *** server/services/database.ts *)

Definition newConnection (kind : BackendKind) (connectionString : JsValue) : M nat :=
  fun w =>
    let h := List.length w.(connections) in
    (Ok h,
     {| storage := w.(storage); reads := w.(reads);
        connections :=
          w.(connections)
          ++ [{| conn_kind := kind;
                 conn_connectionString := connectionString;
                 conn_pool := false |}];
        trace := w.(trace) ++ [EvCreateConnection h kind] |}).

(** The constructor reads its argument with [match] and [includes]:
    string methods.  The parsed [config] is read by the driver only. *)
Definition SQLServerConnection_new (connectionString : JsValue) : M nat :=
  match connectionString with
  | VString _ => newConnection SQLServer connectionString
  | _ => raise (Error (lit "connectionString.match is not a function"))
  end.

Definition PostgreSQLConnection_new (connectionString : JsValue) : M nat :=
  newConnection PostgreSQL connectionString.

(** [DatabaseManager.createConnection] *)
Definition createConnection (type connectionString : JsValue) : M nat :=
  match type with
  | VString t =>
      let lower := E.(toLowerCase) t in
      if jsstring_eqb lower (lit "sqlserver")
      then SQLServerConnection_new connectionString
      else if jsstring_eqb lower (lit "postgresql")
      then PostgreSQLConnection_new connectionString
      else raise (Error (lit "Unsupported database type: " ++ t))
  | _ => raise (Error (lit "type.toLowerCase is not a function"))
  end.

Definition setPool (h : nat) (p : bool) : M unit :=
  fun w => (Ok tt, setConnections (setPoolAt w.(connections) h p) w).

Definition getPoolField (h : nat) : M bool :=
  fun w => (Ok (poolAt w.(connections) h), w).

(** [SQLServerConnection.getPool]: the field is set before [connect]. *)
Definition SQLServerConnection_getPool (h : nat) : M unit :=
  pool <- getPoolField h ;;
  if negb pool then
    setPool h true ;;;
    liftExc (E.(mssql_connect) h)
  else ret tt.

Definition PostgreSQLConnection_getPool (h : nat) : M unit :=
  pool <- getPoolField h ;;
  if negb pool then setPool h true else ret tt.

Definition executionError (executionTime : Z) (error : Thrown) : Thrown :=
  Error (lit "Query execution failed (" ++ numberToString executionTime
         ++ lit "ms): "
         ++ (if instanceofError error then message error
             else lit "Unknown error")).

Definition SQLServerConnection_executeQuery (h : nat) (query : jsstring)
    : M QueryResult :=
  startTime <- Date_now ;;
  tryCatch
    (SQLServerConnection_getPool h ;;;
     result <- liftExc (E.(mssql_query) h query) ;;
     now <- Date_now ;;
     let executionTime := now - startTime in
     ret {| recordset := nullish result.(mssql_recordset) [];
            rowsAffected := nullish result.(mssql_rowsAffected) [0];
            executionTime := executionTime |})
    (fun error =>
       now <- Date_now ;;
       let executionTime := now - startTime in
       raise (executionError executionTime error)).

Definition PostgreSQLConnection_executeQuery (h : nat) (query : jsstring)
    : M QueryResult :=
  startTime <- Date_now ;;
  tryCatch
    (PostgreSQLConnection_getPool h ;;;
     result <- liftExc (E.(pg_query) h query) ;;
     now <- Date_now ;;
     let executionTime := now - startTime in
     ret {| recordset := nullish result.(pg_rows) [];
            rowsAffected := [nullish result.(pg_rowCount) 0];
            executionTime := executionTime |})
    (fun error =>
       now <- Date_now ;;
       let executionTime := now - startTime in
       raise (executionError executionTime error)).

Definition SQLServerConnection_testConnection (h : nat) : M bool :=
  tryCatch
    (SQLServerConnection_getPool h ;;;
     _ <- liftExc (E.(mssql_query) h (lit "SELECT 1")) ;;
     ret true)
    (fun _ => ret false).

Definition PostgreSQLConnection_testConnection (h : nat) : M bool :=
  tryCatch
    (PostgreSQLConnection_getPool h ;;;
     _ <- liftExc (E.(pg_query) h (lit "SELECT 1")) ;;
     ret true)
    (fun _ => ret false).

Definition SQLServerConnection_close (h : nat) : M unit :=
  pool <- getPoolField h ;;
  if pool then
    liftExc (E.(mssql_close) h) ;;;
    setPool h false
  else ret tt.

Definition PostgreSQLConnection_close (h : nat) : M unit :=
  pool <- getPoolField h ;;
  if pool then
    liftExc (E.(pg_end) h) ;;;
    setPool h false
  else ret tt.

Definition getKind (h : nat) : M BackendKind :=
  fun w => (Ok (kindAt w.(connections) h), w).

(** Method calls through the [DatabaseConnection] interface. *)
Definition executeQuery (connection : nat) (query : jsstring) : M QueryResult :=
  emit (EvExecuteQuery connection query) ;;;
  kind <- getKind connection ;;
  match kind with
  | SQLServer => SQLServerConnection_executeQuery connection query
  | PostgreSQL => PostgreSQLConnection_executeQuery connection query
  end.

Definition testConnection (connection : nat) : M bool :=
  emit (EvTestConnection connection) ;;;
  kind <- getKind connection ;;
  match kind with
  | SQLServer => SQLServerConnection_testConnection connection
  | PostgreSQL => PostgreSQLConnection_testConnection connection
  end.

Definition close (connection : nat) : M unit :=
  emit (EvClose connection) ;;;
  kind <- getKind connection ;;
  match kind with
  | SQLServer => SQLServerConnection_close connection
  | PostgreSQL => PostgreSQLConnection_close connection
  end.

(** *** server/routes.ts *)

Definition schemaQuery_postgresql : jsstring :=
  lit "SELECT table_name, column_name, data_type, is_nullable 
             FROM information_schema.columns 
             WHERE table_schema = 'public' 
             ORDER BY table_name, ordinal_position".

Definition schemaQuery_sqlserver : jsstring :=
  lit "SELECT TABLE_NAME, COLUMN_NAME, DATA_TYPE, IS_NULLABLE 
             FROM INFORMATION_SCHEMA.COLUMNS 
             WHERE TABLE_SCHEMA = 'dbo' 
             ORDER BY TABLE_NAME, ORDINAL_POSITION".

Definition noActiveConfigurationMessage : jsstring :=
  lit "No active database configuration found. Please configure a database connection first.".

Definition securityValidationMessage : jsstring :=
  lit "Generated query failed security validation. Only SELECT statements are allowed.".

(** Lines 30-67: the schema block.  [tableSchema] is assigned before
    [connection.close()] is awaited, so a failing [close] leaves the
    assigned text; any earlier failure leaves the empty string. *)
Definition fetchTableSchema (dbConfig : DatabaseConfig) : M jsstring :=
  tryCatch
    (connection <- createConnection (VString dbConfig.(cfg_type))
                     (VString dbConfig.(cfg_connectionString)) ;;
     let schemaQuery :=
       if jsstring_eqb dbConfig.(cfg_type) (lit "postgresql")
       then schemaQuery_postgresql else schemaQuery_sqlserver in
     schemaResult <- executeQuery connection schemaQuery ;;
     let tableSchema :=
       if (0 <? List.length schemaResult.(recordset))%nat
       then E.(schemaText) schemaResult.(recordset) else [] in
     tryCatch (close connection ;;; ret tableSchema)
              (fun schemaError => ret tableSchema))
    (fun schemaError => ret []).

(** Lines 89-136: the execution block. *)
Definition runGeneratedSql (query : jsstring) (sqlResult : SQLGenerationResult)
    (dbConfig : DatabaseConfig) (startTime : Z) : M Response :=
  tryCatch
    (connection <- createConnection (VString dbConfig.(cfg_type))
                     (VString dbConfig.(cfg_connectionString)) ;;
     queryResult <- executeQuery connection sqlResult.(sql) ;;
     let response :=
       BExecution query sqlResult.(sql) queryResult.(recordset)
                  queryResult.(executionTime)
                  (Z.of_nat (List.length queryResult.(recordset)))
                  (lit "success") in
     storage_createQueryHistoryEntry
       {| iqh_naturalQuery := query;
          iqh_generatedSql := sqlResult.(sql);
          iqh_status := lit "success";
          iqh_errorMessage := None;
          iqh_executionTime := Some queryResult.(executionTime);
          iqh_rowCount := Some (Z.of_nat (List.length queryResult.(recordset)));
          iqh_results := Some queryResult.(recordset) |} ;;;
     close connection ;;;
     ret {| status := 200; body := response |})
    (fun dbError =>
       now <- Date_now ;;
       let executionTime := now - startTime in
       let errorMessage :=
         if instanceofError dbError then message dbError
         else lit "Database execution failed" in
       storage_createQueryHistoryEntry
         {| iqh_naturalQuery := query;
            iqh_generatedSql := sqlResult.(sql);
            iqh_status := lit "error";
            iqh_errorMessage := Some errorMessage;
            iqh_executionTime := Some executionTime;
            iqh_rowCount := Some 0;
            iqh_results := None |} ;;;
       ret {| status := 500;
              body := BFailure (lit "Database query failed: " ++ errorMessage)
                               sqlResult.(sql) |}).

(** Lines 28-136: what the handler does once it holds a configuration.
    The call to [validateSQLQuery] is not awaited: the condition negates
    the promise it returns. *)
Definition executeWithConfig (query : jsstring) (dbConfig : DatabaseConfig)
    : M Response :=
  startTime <- Date_now ;;
  tableSchema <- fetchTableSchema dbConfig ;;
  sqlResult <- generateSQLFromNaturalLanguage query dbConfig.(cfg_type)
                 tableSchema ;;
  if negb (ToBoolean_Promise
             (validateSQLQuery E.(toUpperCase) (VString sqlResult.(sql))))
  then
    now <- Date_now ;;
    storage_createQueryHistoryEntry
      {| iqh_naturalQuery := query;
         iqh_generatedSql := sqlResult.(sql);
         iqh_status := lit "error";
         iqh_errorMessage :=
           Some (lit "Generated query failed security validation");
         iqh_executionTime := Some (now - startTime);
         iqh_rowCount := Some 0;
         iqh_results := None |} ;;;
    ret {| status := 400; body := BMessage securityValidationMessage |}
  else runGeneratedSql query sqlResult dbConfig startTime.

(** The outer [catch] of the execute handler. *)
Definition executeCatch (error : Thrown) : M Response :=
  if instanceofZodError error
  then ret {| status := 400;
              body := BInvalid (lit "Invalid request data") (message error) |}
  else
    let errorMessage :=
      if instanceofError error then message error
      else lit "Unknown error occurred" in
    ret {| status := 500; body := BMessage errorMessage |}.

(** [app.post("/api/queries/execute", ...)]; [reqBodyQuery] is
    [req.body.query]. *)
Definition executeHandler (reqBodyQuery : JsValue) : M Response :=
  tryCatch
    (query <- liftExc (naturalLanguageQuerySchema_parse reqBodyQuery) ;;
     dbConfig <- storage_getActiveDatabaseConfig ;;
     match dbConfig with
     | None =>
         ret {| status := 400; body := BMessage noActiveConfigurationMessage |}
     | Some dbConfig => executeWithConfig query dbConfig
     end)
    executeCatch.

(** [app.get("/api/queries/history", ...)]; [reqQueryLimit] is
    [req.query.limit], absent or a string. *)
Definition historyHandler (reqQueryLimit : option jsstring) : M Response :=
  tryCatch
    (let limit :=
       match reqQueryLimit with
       | Some (c :: s) => E.(parseInt) (c :: s)
       | _ => Int 50
       end in
     history <- storage_getQueryHistory (Some limit) ;;
     ret {| status := 200; body := BHistory history |})
    (fun error =>
       let errorMessage :=
         if instanceofError error then message error
         else lit "Failed to fetch query history" in
       ret {| status := 500; body := BMessage errorMessage |}).

(** [app.delete("/api/queries/history", ...)] *)
Definition clearHistoryHandler : M Response :=
  tryCatch
    (storage_clearQueryHistory ;;;
     ret {| status := 200;
            body := BCleared (lit "Query history cleared successfully") |})
    (fun error =>
       let errorMessage :=
         if instanceofError error then message error
         else lit "Failed to clear query history" in
       ret {| status := 500; body := BMessage errorMessage |}).

(** [app.post("/api/database/test", ...)]; the arguments are
    [req.body.type] and [req.body.connectionString]. *)
Definition testHandler (type connectionString : JsValue) : M Response :=
  tryCatch
    (if negb (ToBoolean type) || negb (ToBoolean connectionString)
     then ret {| status := 400;
                 body := BMessage
                   (lit "Database type and connection string are required") |}
     else
       connection <- createConnection type connectionString ;;
       isConnected <- testConnection connection ;;
       close connection ;;;
       if isConnected
       then ret {| status := 200;
                   body := BTest true (lit "Database connection successful") |}
       else ret {| status := 400;
                   body := BTest false (lit "Database connection failed") |})
    (fun error =>
       let errorMessage :=
         if instanceofError error then message error
         else lit "Connection test failed" in
       ret {| status := 500; body := BTest false errorMessage |}).

(** The process after start-up: [new MemStorage()] has taken one clock
    reading, nothing else has happened. *)
Definition initialWorld : World :=
  {| storage := MemStorage_new E.(DATABASE_URL) (E.(clock) 0);
     reads := 1;
     connections := [];
     trace := [] |}.

End Server.

(** A computation that leaves the part [f] of the world as it found it. *)
Definition preserves {A X} (f : World -> X) (m : M A) : Prop :=
  forall w, f (snd (m w)) = f w.

(** The stored configurations. *)
Definition configsOf (w : World) : JsMap.t DatabaseConfig :=
  w.(storage).(databaseConfigs).

(** The requests that write no configuration. *)
Inductive Request :=
| ReqExecute (reqBodyQuery : JsValue)
| ReqHistory (reqQueryLimit : option jsstring)
| ReqClearHistory
| ReqTest (type connectionString : JsValue).

Definition serve (E : Env) (r : Request) : M Response :=
  match r with
  | ReqExecute reqBodyQuery => executeHandler E reqBodyQuery
  | ReqHistory reqQueryLimit => historyHandler E reqQueryLimit
  | ReqClearHistory => clearHistoryHandler
  | ReqTest type connectionString => testHandler E type connectionString
  end.

(** The world after serving the requests one after the other. *)
Definition serveAll (E : Env) (rs : list Request) (w : World) : World :=
  fold_left (fun w r => snd (serve E r w)) rs w.

(** A computation all of whose outcomes satisfy [Q]. *)
Definition answers {A} (m : M A) (Q : Exc A -> Prop) : Prop :=
  forall w, Q (fst (m w)).

(** An event of the trace is an [executeQuery] call. *)
Definition isExecuteQuery (ev : Event) : bool :=
  match ev with EvExecuteQuery _ _ => true | _ => false end.

Definition isCloseOf (h : nat) (ev : Event) : bool :=
  match ev with EvClose h' => Nat.eqb h h' | _ => false end.

(** The connection objects created in a trace. *)
Fixpoint created (tr : list Event) : list nat :=
  match tr with
  | [] => []
  | EvCreateConnection h _ :: tr' => h :: created tr'
  | _ :: tr' => created tr'
  end.

(** Every connection object created in the trace had [close] called. *)
Definition allClosed (tr : list Event) : bool :=
  forallb (fun h => existsb (isCloseOf h) tr) (created tr).

(* ================================================================= *)
(** ** Test doubles *)

(** [parseInt] on an optional sign followed by decimal digits. *)
Fixpoint leadingDigits (s : jsstring) (acc : option Z) : option Z :=
  match s with
  | c :: s' =>
      if ((48 <=? c) && (c <=? 57))%N
      then leadingDigits s' (Some (10 * nullish acc 0 + Z.of_N (c - 48)))
      else acc
  | [] => acc
  end.

Definition parseIntDecimal (s : jsstring) : JsNumber :=
  match s with
  | 45%N :: s' =>
      match leadingDigits s' None with Some z => Int (- z) | None => NaN end
  | 43%N :: s' =>
      match leadingDigits s' None with Some z => Int z | None => NaN end
  | _ =>
      match leadingDigits s None with Some z => Int z | None => NaN end
  end.

(** A stub environment in the style of the scenarios: ASCII case mapping,
    decimal [parseInt], a clock that advances 10 ms per reading, a model
    that answers [answer], and a PostgreSQL driver [pg]. *)
Definition stubEnv (answer : Exc LlmJson) (pg : nat -> jsstring -> Exc PgResult)
    : Env :=
  {| toUpperCase := map asciiUpper;
     toLowerCase := map asciiLower;
     parseInt := parseIntDecimal;
     clock := fun n => 1000 + 10 * Z.of_nat n;
     DATABASE_URL := None;
     llm := fun _ _ _ => answer;
     mssql_connect := fun _ => Ok tt;
     mssql_query := fun _ _ => Ok {| mssql_recordset := None; mssql_rowsAffected := None |};
     mssql_close := fun _ => Ok tt;
     pg_query := pg;
     pg_end := fun _ => Ok tt;
     schemaText := fun _ => [] |}.

Definition answerSql (s : string) : Exc LlmJson :=
  Ok {| json_sql := Some (lit s); json_explanation := None |}.

Definition threeRows : list Row :=
  [[(lit "id", VNumber 1)]; [(lit "id", VNumber 2)]; [(lit "id", VNumber 3)]].

(** A driver that answers every statement with three rows. *)
Definition pgThreeRows : nat -> jsstring -> Exc PgResult :=
  fun _ _ => Ok {| pg_rows := Some threeRows; pg_rowCount := Some 3 |}.

(** A driver on which the statement [failing] fails and others succeed. *)
Definition pgFailsOn (failing : jsstring) : nat -> jsstring -> Exc PgResult :=
  fun _ q =>
    if jsstring_eqb q failing
    then Raise (Error (lit "relation does not exist"))
    else Ok {| pg_rows := Some threeRows; pg_rowCount := Some 3 |}.

(** A patch that only withdraws activation. *)
Definition deactivatePatch : PartialInsertDatabaseConfig :=
  {| part_name := None; part_type := None; part_connectionString := None;
     part_isActive := Some (Some false) |}.

(** A store in which no configuration is active: the default one has been
    deactivated. *)
Definition storeWithoutActive : MemStorage :=
  snd (updateDatabaseConfig (MemStorage_new None 1000) 1 deactivatePatch).

Definition worldOf (st : MemStorage) : World :=
  {| storage := st; reads := 1; connections := []; trace := [] |}.

Definition successEntry : InsertQueryHistory :=
  {| iqh_naturalQuery := lit "Show all rows";
     iqh_generatedSql := lit "SELECT * FROM t LIMIT 100";
     iqh_status := lit "success";
     iqh_errorMessage := None;
     iqh_executionTime := Some 10;
     iqh_rowCount := Some 0;
     iqh_results := Some [] |}.

(** A store with three history entries, written at times 10, 20 and 30. *)
Definition storeWithHistory : MemStorage :=
  calls (MemStorage_new None 0)
    [CallCreateQueryHistoryEntry successEntry 10;
     CallCreateQueryHistoryEntry successEntry 20;
     CallCreateQueryHistoryEntry successEntry 30].

(** A second, inactive configuration next to the default one. *)
Definition inactiveInput : InsertDatabaseConfig :=
  {| ins_name := lit "Reporting"; ins_type := lit "sqlserver";
     ins_connectionString := lit "Server=db;Database=r";
     ins_isActive := None |}.

Definition storeTwoConfigs : MemStorage :=
  calls (MemStorage_new None 0) [CallCreateDatabaseConfig inactiveInput 5].

(** A store with two active configurations. *)
Definition storeTwoActive : MemStorage :=
  {| databaseConfigs :=
       [(1, {| cfg_id := 1; cfg_name := lit "a"; cfg_type := lit "postgresql";
               cfg_connectionString := lit "x"; cfg_isActive := Some true;
               cfg_createdAt := Some 1 |});
        (2, {| cfg_id := 2; cfg_name := lit "b"; cfg_type := lit "sqlserver";
               cfg_connectionString := lit "y"; cfg_isActive := Some true;
               cfg_createdAt := Some 2 |})];
     queryHistory := [];
     currentConfigId := 3;
     currentHistoryId := 1 |}.

(** A configuration write that asks for activation. *)
Definition activeInput : InsertDatabaseConfig :=
  {| ins_name := lit "Reporting"; ins_type := lit "sqlserver";
     ins_connectionString := lit "Server=db;Database=r";
     ins_isActive := Some true |}.

(** A patch that only asks for activation. *)
Definition activatePatch : PartialInsertDatabaseConfig :=
  {| part_name := None; part_type := None; part_connectionString := None;
     part_isActive := Some (Some true) |}.

(** A world holding one connection object of the given class, number 0. *)
Definition worldWithConnection (kind : BackendKind) : World :=
  {| storage := storeWithoutActive;
     reads := 0;
     connections :=
       [{| conn_kind := kind;
           conn_connectionString := VString (lit "postgresql://localhost:5432/sample");
           conn_pool := false |}];
     trace := [] |}.

(* ================================================================= *)
(** ** Counting calls, and what a fresh counter means *)

Definition isCreateQueryHistoryEntry (c : StorageCall) : bool :=
  match c with CallCreateQueryHistoryEntry _ _ => true | _ => false end.

Definition isCreateDatabaseConfig (c : StorageCall) : bool :=
  match c with CallCreateDatabaseConfig _ _ => true | _ => false end.

(** Every key of the map is below the counter that issues the next one,
    keys are distinct and each entry sits under its own [id]. *)
Definition historyFresh (st : MemStorage) : Prop :=
  Forall (fun k => k < st.(currentHistoryId)) (JsMap.keys st.(queryHistory))
  /\ NoDup (JsMap.keys st.(queryHistory))
  /\ Forall (fun kv => (snd kv).(qh_id) = fst kv) st.(queryHistory).

Definition configsFresh (st : MemStorage) : Prop :=
  Forall (fun k => k < st.(currentConfigId)) (JsMap.keys st.(databaseConfigs)).

(** Entries created at time [t]. *)
Definition createdAtTime (t : Z) (e : QueryHistory) : bool :=
  e.(qh_createdAt) =? t.

(* ================================================================= *)
(** ** The configuration routes *)

(** The fields of [req.body] that [insertDatabaseConfigSchema] reads. *)
Record ConfigBody := mkConfigBody {
  body_name : JsValue;
  body_type : JsValue;
  body_connectionString : JsValue;
  body_isActive : JsValue
}.

(** [insertDatabaseConfigSchema]: [createInsertSchema(databaseConfigs)]
    without [id] and [createdAt].  The three [notNull] text columns are
    required strings; [is_active], nullable with a default, is an optional
    nullable boolean. *)
Definition insertDatabaseConfigSchema_parse (b : ConfigBody)
    : Exc InsertDatabaseConfig :=
  match b.(body_name), b.(body_type), b.(body_connectionString) with
  | VString name, VString type, VString connectionString =>
      match b.(body_isActive) with
      | VUndefined | VNull =>
          Ok {| ins_name := name; ins_type := type;
                ins_connectionString := connectionString;
                ins_isActive := None |}
      | VBool isActive =>
          Ok {| ins_name := name; ins_type := type;
                ins_connectionString := connectionString;
                ins_isActive := Some isActive |}
      | _ => Raise (ZodError (lit "isActive: expected boolean"))
      end
  | _, _, _ => Raise (ZodError (lit "expected string"))
  end.

(** The JSON bodies of the two configuration routes. *)
Inductive ConfigAnswer :=
| CActiveConfig (activeConfig : option DatabaseConfig)
| CConfig (config : DatabaseConfig)
| CInvalid (message : jsstring) (errors : jsstring)
| CMessage (message : jsstring).

Record ConfigResponse := mkConfigResponse {
  config_status : Z;
  config_body : ConfigAnswer
}.

(** [storage.createDatabaseConfig], with the reading behind [new Date()]. *)
Definition storage_createDatabaseConfig (E : Env) (config : InsertDatabaseConfig)
    : M DatabaseConfig :=
  now <- Date_now E ;;
  fun w =>
    let (newConfig, st) := createDatabaseConfig w.(storage) config now in
    (Ok newConfig, setStorage st w).

(** [app.get("/api/database/configs", ...)] *)
Definition configsHandler : M ConfigResponse :=
  tryCatch
    (activeConfig <- storage_getActiveDatabaseConfig ;;
     ret {| config_status := 200; config_body := CActiveConfig activeConfig |})
    (fun error =>
       let errorMessage :=
         if instanceofError error then message error
         else lit "Failed to fetch database configuration" in
       ret {| config_status := 500; config_body := CMessage errorMessage |}).

(** [app.post("/api/database/configs", ...)] *)
Definition saveConfigHandler (E : Env) (reqBody : ConfigBody) : M ConfigResponse :=
  tryCatch
    (configData <- liftExc (insertDatabaseConfigSchema_parse reqBody) ;;
     config <- storage_createDatabaseConfig E configData ;;
     ret {| config_status := 200; config_body := CConfig config |})
    (fun error =>
       if instanceofZodError error
       then ret {| config_status := 400;
                   config_body := CInvalid (lit "Invalid configuration data")
                                           (message error) |}
       else
         let errorMessage :=
           if instanceofError error then message error
           else lit "Failed to save database configuration" in
         ret {| config_status := 500; config_body := CMessage errorMessage |}).

(** Every request the routes serve. *)
Inductive ApiRequest :=
| ApiOther (r : Request)
| ApiConfigs
| ApiSaveConfig (reqBody : ConfigBody).

Definition serveApi (E : Env) (r : ApiRequest) (w : World) : World :=
  match r with
  | ApiOther r => snd (serve E r w)
  | ApiConfigs => snd (configsHandler w)
  | ApiSaveConfig reqBody => snd (saveConfigHandler E reqBody w)
  end.

Definition serveApiAll (E : Env) (rs : list ApiRequest) (w : World) : World :=
  fold_left (fun w r => serveApi E r w) rs w.

(** The stored configurations together with the counter. *)
Definition configState (w : World) : JsMap.t DatabaseConfig * Z :=
  (w.(storage).(databaseConfigs), w.(storage).(currentConfigId)).

(* ================================================================= *)
(** ** client/src/components : what the forms send *)

(** What a click handler does: it shows a toast, or it starts the
    mutation with the given payload. *)
Inductive Click (Payload : Type) :=
| Toast (title description : jsstring)
| Mutate (payload : Payload).
Arguments Toast {Payload} title description.
Arguments Mutate {Payload} payload.

Definition isEmpty (s : jsstring) : bool :=
  match s with [] => true | _ => false end.

(** [handleExecuteQuery] of the query form; the payload is the [query]
    field of the request body. *)
Definition handleExecuteQuery (currentQuery : jsstring) : Click jsstring :=
  if isEmpty (trim currentQuery)
  then Toast (lit "Query required") (lit "Please enter a query to execute")
  else if (500 <? List.length currentQuery)%nat
  then Toast (lit "Query too long")
             (lit "Please limit your query to 500 characters")
  else Mutate currentQuery.

(** [handleSaveSettings] of the settings dialog with the body that
    [saveSettingsMutation] posts. *)
Definition handleSaveSettings (E : Env) (databaseType connectionString : jsstring)
    : Click ConfigBody :=
  if isEmpty (trim connectionString)
  then Toast (lit "Connection string required")
             (lit "Please enter a connection string")
  else Mutate
         {| body_name := VString (E.(toUpperCase) databaseType ++ lit " Connection");
            body_type := VString databaseType;
            body_connectionString := VString connectionString;
            body_isActive := VBool true |}.

(** [handleTestConnection] of the settings dialog with the body that
    [testConnectionMutation] posts: [type] and [connectionString]. *)
Definition handleTestConnection (databaseType connectionString : jsstring)
    : Click (JsValue * JsValue) :=
  if isEmpty (trim connectionString)
  then Toast (lit "Connection string required")
             (lit "Please enter a connection string to test")
  else Mutate (VString databaseType, VString connectionString).

(* ================================================================= *)
(** ** Outcomes of driver calls, and growth of the history *)

Definition succeeds {A} (x : Exc A) : bool :=
  match x with Ok _ => true | Raise _ => false end.

(** The history of [st'] is that of [st] with [added] appended, and the
    configurations are those of [st]. *)
Definition appended (added : list QueryHistory) (st st' : MemStorage) : Prop :=
  historyFresh st'
  /\ JsMap.values st'.(queryHistory) = JsMap.values st.(queryHistory) ++ added
  /\ st'.(databaseConfigs) = st.(databaseConfigs).

(** From a world whose history is fresh, [m] appends entries to the
    history, and its outcome and the appended entries satisfy [Q]. *)
Definition appends {A} (m : M A) (Q : Exc A -> list QueryHistory -> Prop) : Prop :=
  forall w, historyFresh w.(storage) ->
    exists added,
      appended added w.(storage) (snd (m w)).(storage) /\ Q (fst (m w)) added.

(** What an answer of the execute route says about the entries the
    request appended: a result comes with exactly one success entry that
    holds the statement and the rows of the answer; a failure that carries
    the generated SQL comes with one or two entries, the last of which is
    an error entry whose message the answer repeats; any other answer
    comes with none. *)
Definition accounted (resp : Response) (added : list QueryHistory) : Prop :=
  match resp.(body) with
  | BExecution _ generatedSql results _ rowCount _ =>
      resp.(status) = 200
      /\ exists e,
           added = [e]
           /\ e.(qh_status) = lit "success"
           /\ e.(qh_generatedSql) = generatedSql
           /\ e.(qh_results) = Some results
           /\ e.(qh_rowCount) = Some rowCount
  | BFailure message generatedSql =>
      resp.(status) = 500
      /\ exists before e errorMessage,
           added = before ++ [e]
           /\ (List.length before <= 1)%nat
           /\ e.(qh_status) = lit "error"
           /\ e.(qh_generatedSql) = generatedSql
           /\ e.(qh_errorMessage) = Some errorMessage
           /\ message = lit "Database query failed: " ++ errorMessage
  | _ => added = []
  end.

(* ================================================================= *)
(** ** server/services/database.ts : the rest of the classes *)

(** [s.match(/<key>([^;]+)/)], its first group: the leftmost place where
    [key] is followed by a code unit other than ';', and from there the
    longest run without ';'. *)
Fixpoint untilSemicolon (s : jsstring) : jsstring :=
  match s with
  | c :: s' => if (c =? 59)%N then [] else c :: untilSemicolon s'
  | [] => []
  end.

Fixpoint matchAfter (key s : jsstring) {struct s} : option jsstring :=
  let here :=
    if startsWith s key
    then match untilSemicolon (skipn (List.length key) s) with
         | [] => None
         | group => Some group
         end
    else None in
  match here, s with
  | Some group, _ => Some group
  | None, _ :: s' => matchAfter key s'
  | None, [] => None
  end.

(** The [sql.config] that the constructor of [SQLServerConnection]
    builds; an absent [user] or [password] is [None]. *)
Record SqlConfig := mkSqlConfig {
  server : jsstring;
  database : jsstring;
  user : option jsstring;
  password : option jsstring;
  encrypt : bool;
  trustServerCertificate : bool;
  requestTimeout : Z;
  connectionTimeout : Z
}.

Definition SQLServerConnection_config (connectionString : jsstring) : SqlConfig :=
  let serverMatch := matchAfter (lit "Server=") connectionString in
  let databaseMatch := matchAfter (lit "Database=") connectionString in
  let userMatch := matchAfter (lit "User Id=") connectionString in
  let passwordMatch := matchAfter (lit "Password=") connectionString in
  let integrated := includes connectionString (lit "Integrated Security=true") in
  {| server := nullish serverMatch (lit "localhost");
     database := nullish databaseMatch [];
     user := if integrated then None else userMatch;
     password := if integrated then None else passwordMatch;
     encrypt := true;
     trustServerCertificate := true;
     requestTimeout := 30000;
     connectionTimeout := 30000 |}.

(** [DatabaseManager.connections]: a [Map<string, DatabaseConnection>],
    insertion-ordered, the connection objects by number. *)
Definition Registry := list (jsstring * nat).

Fixpoint registry_get (reg : Registry) (connectionId : jsstring) : option nat :=
  match reg with
  | [] => None
  | (k, c) :: reg' =>
      if jsstring_eqb k connectionId then Some c
      else registry_get reg' connectionId
  end.

Fixpoint registry_set (reg : Registry) (connectionId : jsstring) (c : nat)
    : Registry :=
  match reg with
  | [] => [(connectionId, c)]
  | (k, c') :: reg' =>
      if jsstring_eqb k connectionId then (connectionId, c) :: reg'
      else (k, c') :: registry_set reg' connectionId c
  end.

(** [getConnection]: [this.connections.get(connectionId) || null] *)
Definition getConnection (reg : Registry) (connectionId : jsstring) : option nat :=
  registry_get reg connectionId.

Definition setConnection (reg : Registry) (connectionId : jsstring)
    (connection : nat) : Registry :=
  registry_set reg connectionId connection.

(** The [for ... of] loop of [closeAllConnections]. *)
Fixpoint closeEach (E : Env) (connections : list nat) : M unit :=
  match connections with
  | [] => ret tt
  | connection :: rest => close E connection ;;; closeEach E rest
  end.

(** [closeAllConnections]: the registry it leaves is the result; when a
    [close] throws, [clear] is not reached and the registry stays. *)
Definition closeAllConnections (E : Env) (reg : Registry) : M Registry :=
  closeEach E (map snd reg) ;;; ret [].

(* ================================================================= *)
(** * Properties *)

Unset Implicit Arguments.

(** ** Strings *)

Lemma startsWith_begins_with (s p : jsstring) :
  startsWith s p = true <-> begins_with s p.
Proof.
  revert s; induction p as [|c p IH]; intros s; simpl.
  - split; [intros _; now exists s | reflexivity].
  - destruct s as [|d s].
    + split; [discriminate | intros [rest H]; discriminate].
    + rewrite andb_true_iff, N.eqb_eq, IH. split.
      * intros [-> [rest ->]]. now exists rest.
      * intros [rest H]. injection H as -> ->. split; [reflexivity | now exists rest].
Qed.

Lemma includes_contains_substring (s p : jsstring) :
  includes s p = true <-> contains_substring s p.
Proof.
  induction s as [|c s IH]; simpl.
  - rewrite orb_false_r, startsWith_begins_with. split.
    + intros [rest H]. exists [], rest. exact H.
    + intros [a [b H]]. destruct a; [now exists b | discriminate].
  - rewrite orb_true_iff, IH, startsWith_begins_with. split.
    + intros [[rest H] | [a [b H]]].
      * exists [], rest. exact H.
      * exists (c :: a), b. simpl. now rewrite H.
    + intros [a [b H]]. destruct a as [|x a].
      * left. now exists b.
      * right. injection H as _ H. now exists a, b.
Qed.

Lemma contains_substring_rev (s p : jsstring) :
  contains_substring s p -> contains_substring (rev s) (rev p).
Proof.
  intros [a [b ->]]. exists (rev b), (rev a).
  now rewrite !rev_app_distr, app_assoc.
Qed.

Lemma trimStart_split (s : jsstring) :
  exists pre, s = pre ++ trimStart s /\ Forall (fun c => isWhiteSpace c = true) pre.
Proof.
  induction s as [|c s [pre [H F]]]; simpl.
  - exists []. split; [reflexivity | constructor].
  - destruct (isWhiteSpace c) eqn:W.
    + exists (c :: pre). split; [simpl; now rewrite <- H | now constructor].
    + exists []. split; [reflexivity | constructor].
Qed.

Lemma trimEnd_split (s : jsstring) :
  exists post, s = trimEnd s ++ post /\ Forall (fun c => isWhiteSpace c = true) post.
Proof.
  unfold trimEnd. destruct (trimStart_split (rev s)) as [pre [H F]].
  exists (rev pre). split.
  - rewrite <- rev_app_distr, <- H. now rewrite rev_involutive.
  - apply Forall_rev. exact F.
Qed.

Lemma trim_split (s : jsstring) :
  exists pre post,
    s = pre ++ trim s ++ post
    /\ Forall (fun c => isWhiteSpace c = true) pre
    /\ Forall (fun c => isWhiteSpace c = true) post.
Proof.
  unfold trim. destruct (trimStart_split s) as [pre [H F]].
  destruct (trimEnd_split (trimStart s)) as [post [H' F']].
  exists pre, post. split; [|split; assumption].
  now rewrite <- H'.
Qed.

(** A token that starts with a non-blank cannot begin inside a blank prefix. *)
Lemma contains_substring_strip_left (pre m : jsstring) (c : N) (t : jsstring) :
  Forall (fun x => isWhiteSpace x = true) pre ->
  isWhiteSpace c = false ->
  contains_substring (pre ++ m) (c :: t) ->
  contains_substring m (c :: t).
Proof.
  intros F W. induction F as [|x pre Wx F IH]; simpl; [trivial|].
  intros [a [b H]]. destruct a as [|y a].
  - simpl in H. injection H as -> _. congruence.
  - injection H as _ H. apply IH. now exists a, b.
Qed.

Lemma contains_substring_trim (u token : jsstring) :
  solidEdges token = true ->
  contains_substring u token <-> contains_substring (trim u) token.
Proof.
  intros S. destruct (trim_split u) as [pre [post [H [Fpre Fpost]]]].
  split.
  - intros C. rewrite H in C.
    unfold solidEdges in S.
    destruct token as [|c t]; [discriminate|].
    destruct (rev (c :: t)) as [|d r] eqn:R; [discriminate|].
    apply andb_true_iff in S as [Sc Sd].
    apply negb_true_iff in Sc, Sd.
    apply contains_substring_strip_left in C; [|assumption|assumption].
    apply contains_substring_rev in C.
    rewrite rev_app_distr, R in C.
    apply contains_substring_strip_left in C; [|now apply Forall_rev|assumption].
    apply contains_substring_rev in C.
    now rewrite rev_involutive, <- R, rev_involutive in C.
  - intros [a [b E]]. rewrite H, E.
    exists (pre ++ a), (b ++ post). now rewrite <- !app_assoc.
Qed.

Lemma includes_trim (u token : jsstring) :
  solidEdges token = true ->
  includes (trim u) token = includes u token.
Proof.
  intros S. apply eq_true_iff_eq.
  rewrite !includes_contains_substring. symmetry.
  now apply contains_substring_trim.
Qed.

Lemma includes_infix (a p b : jsstring) : includes (a ++ p ++ b) p = true.
Proof. apply includes_contains_substring. now exists a, b. Qed.

Lemma includes_suffix (a p : jsstring) : includes (a ++ p) p = true.
Proof.
  rewrite <- (app_nil_r p) at 1. apply includes_infix.
Qed.

Lemma noneIncluded_forall (u : jsstring) (keywords : list jsstring) :
  noneIncluded u keywords = true <->
  forall keyword, In keyword keywords -> includes u keyword = false.
Proof.
  induction keywords as [|k ks IH]; simpl.
  - split; [intros _ ? [] | reflexivity].
  - destruct (includes u k) eqn:I.
    + split; [discriminate | intros H; rewrite <- I; symmetry; apply H; now left].
    + rewrite IH. split.
      * intros H k' [<- | Hin]; [exact I | now apply H].
      * intros H k' Hin. apply H. now right.
Qed.

Lemma dangerousKeywords_solid :
  forall keyword, In keyword dangerousKeywords -> solidEdges keyword = true.
Proof.
  apply forallb_forall. vm_compute. reflexivity.
Qed.

(** ** The safety validator *)

Lemma validateSQLQuery_string (toUpperCase : jsstring -> jsstring) (sql : jsstring) :
  validateSQLQuery toUpperCase (VString sql)
  = Resolved (startsWith (trim (toUpperCase sql)) (lit "SELECT")
              && noneIncluded (trim (toUpperCase sql)) dangerousKeywords).
Proof.
  unfold validateSQLQuery, validateSQLQuery_try, call_toUpperCase. cbv zeta.
  now destruct (startsWith (trim (toUpperCase sql)) (lit "SELECT")).
Qed.

(** C3. [validateSQLQuery] resolves to true exactly when the uppercased and
    trimmed text begins with SELECT and the uppercased text contains none of
    the eleven denylisted tokens as a substring; it always resolves, never
    rejects, and resolves to false on an input that is not a string. *)
Theorem validateSQLQuery_policy (toUpperCase : jsstring -> jsstring) :
  (forall sql : jsstring,
      validateSQLQuery toUpperCase (VString sql) = Resolved true
      <-> isSafe_spec toUpperCase sql)
  /\ (forall v : JsValue, exists b, validateSQLQuery toUpperCase v = Resolved b)
  /\ (forall v : JsValue,
        match v with
        | VString _ => True
        | _ => validateSQLQuery toUpperCase v = Resolved false
        end).
Proof.
  split; [|split].
  - intros sql. rewrite validateSQLQuery_string.
    transitivity
      (startsWith (trim (toUpperCase sql)) (lit "SELECT")
       && noneIncluded (trim (toUpperCase sql)) dangerousKeywords = true).
    { split; [intros H; now injection H | now intros ->]. }
    rewrite andb_true_iff, startsWith_begins_with, noneIncluded_forall.
    unfold isSafe_spec. change (map lit _) with dangerousKeywords.
    apply and_iff_compat_l. split; intros H token Hin.
    + specialize (H token Hin).
      rewrite includes_trim in H by now apply dangerousKeywords_solid.
      intros C. apply includes_contains_substring in C. congruence.
    + rewrite includes_trim by now apply dangerousKeywords_solid.
      destruct (includes (toUpperCase sql) token) eqn:I; [|reflexivity].
      exfalso. apply (H token Hin). now apply includes_contains_substring.
  - intros v. unfold validateSQLQuery.
    destruct (validateSQLQuery_try toUpperCase v); eauto.
  - intros []; exact I || reflexivity.
Qed.

(** The policy at a statement of the scenarios. *)
Lemma validateSQLQuery_policy_witness :
  isSafe_spec (map asciiUpper) (lit "select * from t limit 100").
Proof.
  apply (proj1 (proj1 (validateSQLQuery_policy (map asciiUpper)) _)).
  vm_compute. reflexivity.
Defined.

(** ** The insertion-ordered map *)

Section JsMapFacts.

Context {V : Type}.

Lemma JsMap_keys_set (m : JsMap.t V) (k : Z) (v : V) (x : Z) :
  In x (JsMap.keys (JsMap.set m k v)) <-> x = k \/ In x (JsMap.keys m).
Proof.
  induction m as [|[k' v'] m IH]; simpl.
  - intuition.
  - destruct (Z.eqb_spec k' k) as [->|N]; simpl.
    + intuition.
    + rewrite IH. intuition.
Qed.

Lemma JsMap_NoDup_set (m : JsMap.t V) (k : Z) (v : V) :
  NoDup (JsMap.keys m) -> NoDup (JsMap.keys (JsMap.set m k v)).
Proof.
  induction m as [|[k' v'] m IH]; simpl; intros H.
  - constructor; [intros [] | constructor].
  - inversion H as [|? ? Hn Hd]; subst.
    destruct (Z.eqb_spec k' k) as [->|N]; simpl.
    + now constructor.
    + constructor; [|now apply IH].
      rewrite JsMap_keys_set. intros [->|Hin]; [now apply N | now apply Hn].
Qed.

Lemma JsMap_Forall_set (P : Z * V -> Prop) (m : JsMap.t V) (k : Z) (v : V) :
  Forall P m -> P (k, v) -> Forall P (JsMap.set m k v).
Proof.
  induction m as [|[k' v'] m IH]; simpl; intros F Pv.
  - now constructor.
  - inversion F; subst. destruct (k' =? k); constructor; auto.
Qed.

Lemma JsMap_keys_mutate (f : V -> V) (m : JsMap.t V) :
  JsMap.keys (JsMap.mutate f m) = JsMap.keys m.
Proof.
  unfold JsMap.keys, JsMap.mutate. rewrite map_map. reflexivity.
Qed.

Lemma JsMap_get_In (m : JsMap.t V) (k : Z) (v : V) :
  JsMap.get m k = Some v -> In (k, v) m.
Proof.
  induction m as [|[k' v'] m IH]; simpl; [discriminate|].
  destruct (Z.eqb_spec k' k) as [->|N].
  - intros H. injection H as ->. now left.
  - intros H. right. now apply IH.
Qed.

End JsMapFacts.

(** ** Active configurations *)

Lemma activeConfigs_cons (k : Z) (c : DatabaseConfig) (m : JsMap.t DatabaseConfig) :
  activeConfigs ((k, c) :: m)
  = if truthy c.(cfg_isActive) then c :: activeConfigs m else activeConfigs m.
Proof. reflexivity. Qed.

Lemma activeConfigs_inactive (m : JsMap.t DatabaseConfig) :
  Forall (fun kv => truthy (snd kv).(cfg_isActive) = false) m ->
  activeConfigs m = [].
Proof.
  induction 1 as [|[k c] m Hc F IH]; [reflexivity|].
  rewrite activeConfigs_cons. simpl in Hc. now rewrite Hc.
Qed.

Lemma mutate_setInactive_inactive (m : JsMap.t DatabaseConfig) :
  Forall (fun kv => truthy (snd kv).(cfg_isActive) = false)
         (JsMap.mutate setInactive m).
Proof.
  induction m as [|[k c] m IH]; simpl; constructor; auto.
Qed.

(** Storing an active object among inactive ones leaves it the only active one. *)
Lemma activeConfigs_set_among_inactive (m : JsMap.t DatabaseConfig) (k : Z)
    (v : DatabaseConfig) :
  Forall (fun kv => truthy (snd kv).(cfg_isActive) = false) m ->
  truthy v.(cfg_isActive) = true ->
  activeConfigs (JsMap.set m k v) = [v].
Proof.
  intros F Hv. induction F as [|[k' c] m Hc F IH]; simpl.
  - rewrite activeConfigs_cons, Hv. reflexivity.
  - simpl in Hc. destruct (k' =? k).
    + rewrite activeConfigs_cons, Hv. f_equal. now apply activeConfigs_inactive.
    + rewrite activeConfigs_cons, Hc. exact IH.
Qed.

(** The same when only the object under key [k] may be active. *)
Lemma activeConfigs_set_over_active (m : JsMap.t DatabaseConfig) (k : Z)
    (v : DatabaseConfig) :
  NoDup (JsMap.keys m) ->
  Forall (fun kv => fst kv <> k -> truthy (snd kv).(cfg_isActive) = false) m ->
  truthy v.(cfg_isActive) = true ->
  activeConfigs (JsMap.set m k v) = [v].
Proof.
  intros D F Hv. induction F as [|[k' c] m Hc F IH]; simpl.
  - rewrite activeConfigs_cons, Hv. reflexivity.
  - simpl in Hc, D. inversion D as [|? ? Hn D']; subst.
    destruct (Z.eqb_spec k' k) as [->|N].
    + rewrite activeConfigs_cons, Hv. f_equal.
      apply activeConfigs_inactive.
      apply Forall_forall. intros [k1 c1] Hin. simpl.
      rewrite Forall_forall in F. apply (F _ Hin). simpl.
      intros ->. apply Hn. apply (in_map fst) in Hin. exact Hin.
    + rewrite activeConfigs_cons, (Hc N). now apply IH.
Qed.

(** Replacing or adding an object that is active only if the one it
    replaces was does not raise the number of active objects. *)
Lemma activeConfigs_set_le (m : JsMap.t DatabaseConfig) (k : Z) (v : DatabaseConfig) :
  (forall e, JsMap.get m k = Some e ->
             truthy v.(cfg_isActive) = true -> truthy e.(cfg_isActive) = true) ->
  (JsMap.get m k = None -> truthy v.(cfg_isActive) = false) ->
  (List.length (activeConfigs (JsMap.set m k v)) <= List.length (activeConfigs m))%nat.
Proof.
  induction m as [|[k' c] m IH]; simpl; intros HS HN.
  - rewrite activeConfigs_cons, (HN eq_refl). simpl. lia.
  - destruct (Z.eqb_spec k' k) as [->|N].
    + rewrite !activeConfigs_cons.
      destruct (truthy (cfg_isActive v)) eqn:Hv.
      * rewrite (HS c eq_refl eq_refl). simpl. lia.
      * destruct (truthy (cfg_isActive c)); simpl; lia.
    + rewrite !activeConfigs_cons.
      specialize (IH HS HN).
      destruct (truthy (cfg_isActive c)); simpl; lia.
Qed.

Lemma keyed_new (DATABASE_URL : option jsstring) (now : Z) :
  keyed (MemStorage_new DATABASE_URL now).
Proof.
  split; simpl.
  - constructor; [intros [] | constructor].
  - constructor; [reflexivity | constructor].
Qed.

Lemma keyed_create (st : MemStorage) (config : InsertDatabaseConfig) (now : Z) :
  keyed st -> keyed (snd (createDatabaseConfig st config now)).
Proof.
  intros [D F]. unfold keyed, createDatabaseConfig. simpl.
  destruct (truthy (ins_isActive config)).
  - split.
    + apply JsMap_NoDup_set. now rewrite JsMap_keys_mutate.
    + apply JsMap_Forall_set; [|reflexivity].
      unfold JsMap.mutate. rewrite Forall_map.
      eapply Forall_impl; [|exact F]. now intros [k c].
  - split.
    + now apply JsMap_NoDup_set.
    + now apply JsMap_Forall_set.
Qed.

Lemma keyed_update (st : MemStorage) (id : Z) (config : PartialInsertDatabaseConfig) :
  keyed st -> keyed (snd (updateDatabaseConfig st id config)).
Proof.
  intros [D F]. unfold updateDatabaseConfig.
  destruct (JsMap.get (databaseConfigs st) id) as [existing|] eqn:G;
    [|now split].
  assert (Hid : cfg_id existing = id).
  { apply JsMap_get_In in G. rewrite Forall_forall in F. exact (F _ G). }
  unfold keyed. simpl.
  destruct (truthy (nullish (part_isActive config) None)).
  - split.
    + apply JsMap_NoDup_set. now rewrite JsMap_keys_mutate.
    + apply JsMap_Forall_set; [|exact Hid].
      unfold JsMap.mutate. rewrite Forall_map.
      eapply Forall_impl; [|exact F]. intros [k c]. simpl.
      now destruct (negb (cfg_id c =? id)).
  - split.
    + now apply JsMap_NoDup_set.
    + apply JsMap_Forall_set; [exact F | exact Hid].
Qed.

Lemma create_active_only (st : MemStorage) (config : InsertDatabaseConfig) (now : Z) :
  truthy config.(ins_isActive) = true ->
  activeConfigs (snd (createDatabaseConfig st config now)).(databaseConfigs)
  = [fst (createDatabaseConfig st config now)].
Proof.
  intros H. unfold createDatabaseConfig. simpl. rewrite H.
  apply activeConfigs_set_among_inactive.
  - apply mutate_setInactive_inactive.
  - simpl. destruct (ins_isActive config) as [[|]|]; simpl in *; congruence.
Qed.

Lemma update_active_only (st : MemStorage) (id : Z)
    (config : PartialInsertDatabaseConfig) (existing : DatabaseConfig) :
  keyed st ->
  getDatabaseConfig st id = Some existing ->
  truthy (nullish config.(part_isActive) None) = true ->
  fst (updateDatabaseConfig st id config) = Some (spread existing config)
  /\ activeConfigs (snd (updateDatabaseConfig st id config)).(databaseConfigs)
     = [spread existing config].
Proof.
  intros [D F] G H. unfold getDatabaseConfig in G.
  unfold updateDatabaseConfig. rewrite G. simpl. rewrite H.
  split; [reflexivity|].
  apply activeConfigs_set_over_active.
  - now rewrite JsMap_keys_mutate.
  - unfold JsMap.mutate. rewrite Forall_map.
    eapply Forall_impl; [|exact F]. intros [k c]. simpl. intros Hk Hne.
    rewrite Hk. destruct (Z.eqb_spec k id); [contradiction | reflexivity].
  - simpl. destruct (part_isActive config) as [x|]; simpl in *; [exact H | discriminate].
Qed.

Lemma create_count_le (st : MemStorage) (config : InsertDatabaseConfig) (now : Z) :
  truthy config.(ins_isActive) = false ->
  (activeCount (snd (createDatabaseConfig st config now)) <= activeCount st)%nat.
Proof.
  intros H. unfold activeCount, createDatabaseConfig. simpl. rewrite H.
  assert (Hv : nullish (ins_isActive config) false = false).
  { destruct (ins_isActive config) as [[|]|]; simpl in *; congruence. }
  apply activeConfigs_set_le; simpl; rewrite Hv; simpl; congruence.
Qed.

Lemma update_count_le (st : MemStorage) (id : Z) (config : PartialInsertDatabaseConfig) :
  truthy (nullish config.(part_isActive) None) = false ->
  (activeCount (snd (updateDatabaseConfig st id config)) <= activeCount st)%nat.
Proof.
  intros H. unfold activeCount, updateDatabaseConfig.
  destruct (JsMap.get (databaseConfigs st) id) as [existing|] eqn:G;
    [|simpl; lia].
  simpl. rewrite H.
  apply activeConfigs_set_le; simpl.
  - intros e Ge. rewrite G in Ge. injection Ge as <-.
    destruct (part_isActive config) as [x|]; simpl in *; congruence.
  - rewrite G. discriminate.
Qed.

Lemma call_invariant (st : MemStorage) (c : StorageCall) :
  keyed st /\ (activeCount st <= 1)%nat ->
  keyed (call st c) /\ (activeCount (call st c) <= 1)%nat.
Proof.
  intros [K A].
  destruct c as [config now | id config | entry now | ]; cbv beta iota delta [call].
  - split; [now apply keyed_create|].
    destruct (truthy (ins_isActive config)) eqn:H.
    + unfold activeCount. rewrite create_active_only by exact H. simpl. lia.
    + pose proof (create_count_le st config now H). lia.
  - split; [now apply keyed_update|].
    destruct (truthy (nullish (part_isActive config) None)) eqn:H.
    + destruct (getDatabaseConfig st id) as [existing|] eqn:G.
      * destruct (update_active_only st id config existing K G H) as [_ E].
        unfold activeCount. rewrite E. simpl. lia.
      * unfold getDatabaseConfig in G. unfold updateDatabaseConfig.
        rewrite G. exact A.
    + pose proof (update_count_le st id config H). lia.
  - split; assumption.
  - split; assumption.
Qed.

Lemma calls_invariant (cs : list StorageCall) (st : MemStorage) :
  keyed st /\ (activeCount st <= 1)%nat ->
  keyed (calls st cs) /\ (activeCount (calls st cs) <= 1)%nat.
Proof.
  revert st. induction cs as [|c cs IH]; intros st H; simpl; [exact H|].
  apply IH. now apply call_invariant.
Qed.

Lemma find_head_of_filter {A} (f : A -> bool) (l : list A) (x : A) :
  filter f l = [x] -> find f l = Some x.
Proof.
  induction l as [|y l IH]; simpl; [discriminate|].
  destruct (f y); [intros H; now injection H as -> | exact IH].
Qed.

(** C4. In every state the store reaches from its constructor at most one
    configuration is active and the store is keyed by id; creating a
    configuration with isActive true leaves the new one the only active
    one from any state at all, and updating an existing configuration with
    isActive true leaves the updated one the only active one from any keyed
    state, however many were active before. *)
Theorem single_active_configuration :
  (forall (DATABASE_URL : option jsstring) (now : Z) (cs : list StorageCall),
      let st := calls (MemStorage_new DATABASE_URL now) cs in
      keyed st /\ (activeCount st <= 1)%nat)
  /\ (forall (st : MemStorage) (config : InsertDatabaseConfig) (now : Z),
        truthy config.(ins_isActive) = true ->
        let newConfig := fst (createDatabaseConfig st config now) in
        let st' := snd (createDatabaseConfig st config now) in
        activeConfigs st'.(databaseConfigs) = [newConfig]
        /\ activeCount st' = 1%nat
        /\ getActiveDatabaseConfig st' = Some newConfig)
  /\ (forall (st : MemStorage) (id : Z) (config : PartialInsertDatabaseConfig)
             (existing : DatabaseConfig),
        keyed st ->
        getDatabaseConfig st id = Some existing ->
        truthy (nullish config.(part_isActive) None) = true ->
        let updated := spread existing config in
        let st' := snd (updateDatabaseConfig st id config) in
        fst (updateDatabaseConfig st id config) = Some updated
        /\ activeConfigs st'.(databaseConfigs) = [updated]
        /\ activeCount st' = 1%nat
        /\ getActiveDatabaseConfig st' = Some updated).
Proof.
  split; [|split].
  - intros url now cs. apply calls_invariant. split; [apply keyed_new|].
    unfold activeCount. simpl. lia.
  - intros st config now H newConfig st'.
    pose proof (create_active_only st config now H) as E.
    fold newConfig st' in E. split; [exact E|]. split.
    + unfold activeCount. now rewrite E.
    + now apply find_head_of_filter.
  - intros st id config existing K G H updated st'.
    destruct (update_active_only st id config existing K G H) as [R E].
    fold updated st' in E. split; [exact R|]. split; [exact E|]. split.
    + unfold activeCount. now rewrite E.
    + now apply find_head_of_filter.
Qed.

Lemma keyed_storeTwoActive : keyed storeTwoActive.
Proof.
  split; simpl.
  - repeat constructor; simpl; intuition discriminate.
  - repeat constructor.
Qed.

(** Two configurations active before, or the default one active next to a
    second one; one active after either write. *)
Lemma single_active_configuration_witness :
  activeCount storeTwoActive = 2%nat
  /\ activeCount (snd (createDatabaseConfig storeTwoActive activeInput 5)) = 1%nat
  /\ activeCount (snd (updateDatabaseConfig storeTwoActive 2 activatePatch)) = 1%nat
  /\ map cfg_id
       (activeConfigs
          (snd (updateDatabaseConfig storeTwoConfigs 2 activatePatch)).(databaseConfigs))
     = [2].
Proof.
  destruct single_active_configuration as (Hinv & Hcreate & Hupdate).
  split; [reflexivity|]. split; [|split].
  - apply (Hcreate storeTwoActive activeInput 5). reflexivity.
  - eapply (Hupdate storeTwoActive 2 activatePatch).
    + exact keyed_storeTwoActive.
    + reflexivity.
    + reflexivity.
  - destruct (Hupdate storeTwoConfigs 2 activatePatch
                (fst (createDatabaseConfig (MemStorage_new None 0) inactiveInput 5)))
      as (_ & -> & _).
    + apply (Hinv None 0 [CallCreateDatabaseConfig inactiveInput 5]).
    + reflexivity.
    + reflexivity.
    + reflexivity.
Defined.

(** ** Query history *)

Lemma insertByCreatedAt_Permutation (x : QueryHistory) (l : list QueryHistory) :
  Permutation (insertByCreatedAt x l) (x :: l).
Proof.
  induction l as [|y l IH]; simpl; [reflexivity|].
  destruct (qh_createdAt y <=? qh_createdAt x); [reflexivity|].
  rewrite IH. apply perm_swap.
Qed.

Lemma sortByCreatedAtDesc_Permutation (l : list QueryHistory) :
  Permutation (sortByCreatedAtDesc l) l.
Proof.
  induction l as [|x l IH]; simpl; [reflexivity|].
  rewrite insertByCreatedAt_Permutation. now constructor.
Qed.

Lemma insertByCreatedAt_sorted (x : QueryHistory) (l : list QueryHistory) :
  StronglySorted newerFirst l -> StronglySorted newerFirst (insertByCreatedAt x l).
Proof.
  induction 1 as [|y l S IH F]; simpl.
  - repeat constructor.
  - destruct (Z.leb_spec (qh_createdAt y) (qh_createdAt x)) as [L|L].
    + constructor; [now constructor|].
      constructor; [exact L|].
      eapply Forall_impl; [|exact F]. unfold newerFirst. intros; lia.
    + constructor; [exact IH|].
      eapply Permutation_Forall;
        [symmetry; apply insertByCreatedAt_Permutation|].
      constructor; [unfold newerFirst; lia | exact F].
Qed.

Lemma sortByCreatedAtDesc_sorted (l : list QueryHistory) :
  StronglySorted newerFirst (sortByCreatedAtDesc l).
Proof.
  induction l as [|x l IH]; simpl; [constructor|].
  now apply insertByCreatedAt_sorted.
Qed.



Lemma slice0_nil {A} (end_ : JsNumber) : slice0 (@nil A) end_ = [].
Proof. unfold slice0. apply firstn_nil. Qed.

Lemma slice0_length_le {A} (a : list A) (n : Z) :
  0 <= n -> Z.of_nat (List.length (slice0 a (Int n))) <= n.
Proof.
  intros Hn. unfold slice0.
  destruct (Z.ltb_spec n 0) as [L|L]; [lia|].
  rewrite length_firstn. lia.
Qed.


Lemma slice0_length_negative {A} (a : list A) (n : Z) :
  n < 0 ->
  Z.of_nat (List.length (slice0 a (Int n)))
  = Z.max (Z.of_nat (List.length a) + n) 0.
Proof.
  intros Hn. unfold slice0.
  destruct (Z.ltb_spec n 0) as [L|L]; [|lia].
  rewrite length_firstn. lia.
Qed.


Lemma historyHandler_answer (E : Env) (w : World) (reqQueryLimit : option jsstring) :
  historyHandler E reqQueryLimit w
  = (Ok {| status := 200;
           body := BHistory
             (getQueryHistory w.(storage)
                (Some match reqQueryLimit with
                      | Some (c :: s) => E.(parseInt) (c :: s)
                      | _ => Int 50
                      end)) |}, w).
Proof. reflexivity. Qed.



(** A negative limit is not a count: [slice(0, -k)] counts from the end
    and leaves out the [k] oldest records. *)
Lemma negative_limit_leaves_out_oldest (st : MemStorage) (n : Z) :
  n < 0 ->
  Z.of_nat (List.length (getQueryHistory st (Some (Int n))))
  = Z.max (Z.of_nat (List.length (JsMap.values st.(queryHistory))) + n) 0.
Proof.
  intros Hn. unfold getQueryHistory. cbn [nullish].
  rewrite slice0_length_negative by exact Hn.
  now rewrite (Permutation_length (sortByCreatedAtDesc_Permutation _)).
Qed.

(** C8. Clearing the history and then listing it yields the empty
    sequence: on every store, on a store that has just recorded an attempt,
    and through the handlers after an execute request. *)
Theorem clear_then_list_is_empty :
  (forall (st : MemStorage) (limit : option JsNumber),
      getQueryHistory (clearQueryHistory st) limit = [])
  /\ (forall (st : MemStorage) (entry : InsertQueryHistory) (now : Z)
             (limit : option JsNumber),
        getQueryHistory
          (clearQueryHistory (snd (createQueryHistoryEntry st entry now))) limit
        = [])
  /\ (forall (E : Env) (w : World) (reqBodyQuery : JsValue)
             (reqQueryLimit : option jsstring),
        let w1 := snd (executeHandler E reqBodyQuery w) in
        let w2 := snd (clearHistoryHandler w1) in
        fst (clearHistoryHandler w1)
        = Ok {| status := 200;
                body := BCleared (lit "Query history cleared successfully") |}
        /\ historyHandler E reqQueryLimit w2
           = (Ok {| status := 200; body := BHistory [] |}, w2)).
Proof.
  assert (C : forall st limit, getQueryHistory (clearQueryHistory st) limit = []).
  { intros st limit. unfold getQueryHistory, clearQueryHistory. simpl.
    apply slice0_nil. }
  split; [exact C|]. split; [intros; apply C|].
  intros E w reqBodyQuery reqQueryLimit w1 w2. split; [reflexivity|].
  rewrite historyHandler_answer. do 4 f_equal. apply (C (storage w1)).
Qed.


(** ** Computations *)

Lemma answers_ret {A} (a : A) (Q : Exc A -> Prop) :
  Q (Ok a) -> answers (ret a) Q.
Proof. intros H w. exact H. Qed.

Lemma answers_bind {A B} (m : M A) (k : A -> M B) (Q : Exc B -> Prop) :
  (forall a, answers (k a) Q) ->
  (forall e, Q (Raise e)) ->
  answers (bind m k) Q.
Proof.
  intros Hk He w. unfold bind.
  destruct (m w) as [[a|e] w']; [apply Hk | apply He].
Qed.

Lemma answers_tryCatch {A} (m : M A) (handler : Thrown -> M A) (Q : Exc A -> Prop) :
  answers m (fun r => match r with Ok a => Q (Ok a) | Raise _ => True end) ->
  (forall e, answers (handler e) Q) ->
  answers (tryCatch m handler) Q.
Proof.
  intros Hm Hh w. unfold tryCatch. specialize (Hm w).
  destruct (m w) as [[a|e] w']; [exact Hm | apply Hh].
Qed.

Lemma answers_weaken {A} (m : M A) (Q Q' : Exc A -> Prop) :
  (forall r, Q r -> Q' r) -> answers m Q -> answers m Q'.
Proof. intros I H w. apply I, H. Qed.

Create HintDb frame.

Section Frame.

Context {X : Type} (f : World -> X).

Lemma preserves_ret {A} (a : A) : preserves f (ret a).
Proof. intros w. reflexivity. Qed.

Lemma preserves_raise {A} (e : Thrown) : preserves f (@raise A e).
Proof. intros w. reflexivity. Qed.

Lemma preserves_liftExc {A} (x : Exc A) : preserves f (liftExc x).
Proof. intros w. reflexivity. Qed.

Lemma preserves_bind {A B} (m : M A) (k : A -> M B) :
  preserves f m -> (forall a, preserves f (k a)) -> preserves f (bind m k).
Proof.
  intros Hm Hk w. unfold bind. specialize (Hm w).
  destruct (m w) as [[a|e] w']; simpl in *; [|exact Hm].
  rewrite Hk. exact Hm.
Qed.

Lemma preserves_tryCatch {A} (m : M A) (handler : Thrown -> M A) :
  preserves f m -> (forall e, preserves f (handler e)) ->
  preserves f (tryCatch m handler).
Proof.
  intros Hm Hh w. unfold tryCatch. specialize (Hm w).
  destruct (m w) as [[a|e] w']; simpl in *; [exact Hm|].
  rewrite Hh. exact Hm.
Qed.

End Frame.

Lemma preserves_storage_configs {A} (m : M A) :
  preserves storage m -> preserves configsOf m.
Proof. intros H w. unfold configsOf. now rewrite H. Qed.

Lemma preserves_emit (ev : Event) : preserves storage (emit ev).
Proof. intros w. reflexivity. Qed.

Lemma preserves_Date_now (E : Env) : preserves storage (Date_now E).
Proof. intros w. reflexivity. Qed.

Lemma preserves_setPool (h : nat) (p : bool) : preserves storage (setPool h p).
Proof. intros w. reflexivity. Qed.

Lemma preserves_getPoolField (h : nat) : preserves storage (getPoolField h).
Proof. intros w. reflexivity. Qed.

Lemma preserves_getKind (h : nat) : preserves storage (getKind h).
Proof. intros w. reflexivity. Qed.

Lemma preserves_newConnection (kind : BackendKind) (cs : JsValue) :
  preserves storage (newConnection kind cs).
Proof. intros w. reflexivity. Qed.

Lemma preserves_getActive : preserves storage storage_getActiveDatabaseConfig.
Proof. intros w. reflexivity. Qed.

Lemma preserves_getQueryHistory (limit : option JsNumber) :
  preserves storage (storage_getQueryHistory limit).
Proof. intros w. reflexivity. Qed.

(** The two history writes touch the history only. *)
Lemma preserves_createQueryHistoryEntry (E : Env) (entry : InsertQueryHistory) :
  preserves configsOf (storage_createQueryHistoryEntry E entry).
Proof. intros w. reflexivity. Qed.

Lemma preserves_clearQueryHistory : preserves configsOf storage_clearQueryHistory.
Proof. intros w. reflexivity. Qed.

#[local] Hint Resolve preserves_ret preserves_raise preserves_liftExc
  preserves_emit preserves_Date_now preserves_setPool preserves_getPoolField
  preserves_getKind preserves_newConnection preserves_getActive
  preserves_getQueryHistory preserves_createQueryHistoryEntry
  preserves_clearQueryHistory preserves_storage_configs : frame.

Ltac frame :=
  repeat first
    [ progress auto with frame
    | apply preserves_bind; [|intros ?]
    | apply preserves_tryCatch; [|intros ?]
    | match goal with
      | |- preserves _ (if ?b then _ else _) => destruct b
      | |- preserves _ (match ?x with _ => _ end) => destruct x
      end ].

Lemma preserves_createConnection (E : Env) (type connectionString : JsValue) :
  preserves storage (createConnection E type connectionString).
Proof.
  unfold createConnection, SQLServerConnection_new, PostgreSQLConnection_new.
  frame.
Qed.

Lemma preserves_executeQuery (E : Env) (h : nat) (query : jsstring) :
  preserves storage (executeQuery E h query).
Proof.
  unfold executeQuery, SQLServerConnection_executeQuery,
    PostgreSQLConnection_executeQuery, SQLServerConnection_getPool,
    PostgreSQLConnection_getPool.
  frame.
Qed.

Lemma preserves_testConnection (E : Env) (h : nat) :
  preserves storage (testConnection E h).
Proof.
  unfold testConnection, SQLServerConnection_testConnection,
    PostgreSQLConnection_testConnection, SQLServerConnection_getPool,
    PostgreSQLConnection_getPool.
  frame.
Qed.

Lemma preserves_close (E : Env) (h : nat) : preserves storage (close E h).
Proof.
  unfold close, SQLServerConnection_close, PostgreSQLConnection_close.
  frame.
Qed.

#[local] Hint Resolve preserves_createConnection preserves_executeQuery
  preserves_testConnection preserves_close : frame.

Lemma preserves_testHandler (E : Env) (type connectionString : JsValue) :
  preserves storage (testHandler E type connectionString).
Proof. unfold testHandler. frame. Qed.

Lemma preserves_fetchTableSchema (E : Env) (dbConfig : DatabaseConfig) :
  preserves storage (fetchTableSchema E dbConfig).
Proof. unfold fetchTableSchema. frame. Qed.

Lemma preserves_generate (E : Env) (naturalQuery databaseType tableSchema : jsstring) :
  preserves storage
    (generateSQLFromNaturalLanguage E naturalQuery databaseType tableSchema).
Proof. unfold generateSQLFromNaturalLanguage. frame. Qed.

#[local] Hint Resolve preserves_testHandler preserves_fetchTableSchema
  preserves_generate : frame.

(** The execute handler writes history entries and no configuration. *)
Lemma preserves_executeHandler (E : Env) (reqBodyQuery : JsValue) :
  preserves configsOf (executeHandler E reqBodyQuery).
Proof.
  unfold executeHandler, executeCatch, executeWithConfig, runGeneratedSql.
  frame.
Qed.

Lemma preserves_serve (E : Env) (r : Request) : preserves configsOf (serve E r).
Proof.
  destruct r; simpl.
  - apply preserves_executeHandler.
  - unfold historyHandler. frame.
  - unfold clearHistoryHandler. frame.
  - auto with frame.
Qed.

Lemma serveAll_configs (E : Env) (rs : list Request) (w : World) :
  configsOf (serveAll E rs w) = configsOf w.
Proof.
  unfold serveAll. revert w.
  induction rs as [|r rs IH]; intros w; simpl; [reflexivity|].
  rewrite IH. apply preserves_serve.
Qed.

(** ** POST /api/database/test *)

(** C9, as the code has it.  The connection test writes nothing to the
    store on any path and always answers with a message; the answer
    carries a success flag when both fields of the request are truthy, and
    is the 400 "required" message without a flag otherwise. *)
Theorem test_connection_leaves_storage
    (E : Env) (w : World) (type connectionString : JsValue) :
  let r := testHandler E type connectionString w in
  (snd r).(storage) = w.(storage)
  /\ exists resp,
       fst r = Ok resp
       /\ (exists m, body_message resp.(body) = Some m)
       /\ (if ToBoolean type && ToBoolean connectionString
           then exists success, body_success resp.(body) = Some success
           else resp
                = {| status := 400;
                     body := BMessage
                       (lit "Database type and connection string are required") |}).
Proof.
  intros r. split; [apply preserves_testHandler|].
  subst r. revert w.
  change (answers (testHandler E type connectionString)
            (fun r => exists resp,
                 r = Ok resp
                 /\ (exists m, body_message (body resp) = Some m)
                 /\ (if ToBoolean type && ToBoolean connectionString
                     then exists success, body_success (body resp) = Some success
                     else resp
                          = {| status := 400;
                               body := BMessage
                                 (lit "Database type and connection string are required") |}))).
  unfold testHandler.
  destruct (ToBoolean type), (ToBoolean connectionString);
    cbn [negb orb andb];
    try (intros w; eexists; split; [reflexivity|];
         split; [eexists; reflexivity | reflexivity]).
  apply answers_tryCatch.
  - repeat (apply answers_bind; [intros ?|trivial]).
    match goal with |- answers (if ?b then _ else _) _ => destruct b end;
      apply answers_ret; eexists; (split; [reflexivity|]);
      split; eexists; reflexivity.
  - intros e. apply answers_ret. eexists. split; [reflexivity|].
    split; eexists; reflexivity.
Qed.

(** C9 as stated fails: a request whose type is the empty string is
    answered with a message only, without a success flag. *)
Lemma test_connection_response_counterexample :
  ~ (forall (E : Env) (w : World) (type connectionString : JsValue),
        exists resp success,
          fst (testHandler E type connectionString w) = Ok resp
          /\ body_success resp.(body) = Some success).
Proof.
  intros H.
  destruct (H (stubEnv (answerSql "SELECT 1") pgThreeRows)
              (worldOf storeWithoutActive)
              (VString []) (VString (lit "postgresql://localhost:5432/sample")))
    as [resp [success [R S]]].
  vm_compute in R. injection R as <-. discriminate S.
Qed.

(** ** POST /api/queries/execute *)

Lemma executeHandler_unfold (E : Env) (reqBodyQuery : JsValue) (w : World) :
  executeHandler E reqBodyQuery w
  = match naturalLanguageQuerySchema_parse reqBodyQuery with
    | Raise error => executeCatch error w
    | Ok query =>
        match getActiveDatabaseConfig w.(storage) with
        | None =>
            (Ok {| status := 400; body := BMessage noActiveConfigurationMessage |}, w)
        | Some dbConfig =>
            tryCatch (executeWithConfig E query dbConfig) executeCatch w
        end
    end.
Proof.
  unfold executeHandler, tryCatch at 1, bind at 1, liftExc.
  destruct (naturalLanguageQuerySchema_parse reqBodyQuery) as [query|error];
    [|reflexivity].
  unfold bind at 1, storage_getActiveDatabaseConfig.
  destruct (getActiveDatabaseConfig (storage w)); reflexivity.
Qed.

Lemma parse_raises_ZodError (reqBodyQuery : JsValue) (error : Thrown) :
  naturalLanguageQuerySchema_parse reqBodyQuery = Raise error ->
  instanceofZodError error = true.
Proof.
  unfold naturalLanguageQuerySchema_parse.
  destruct reqBodyQuery; try (intros H; injection H as <-; reflexivity).
  destruct (_ && _); [discriminate | intros H; injection H as <-; reflexivity].
Qed.

Lemma executeHandler_without_active (E : Env) (w : World) (reqBodyQuery : JsValue) :
  getActiveDatabaseConfig w.(storage) = None ->
  executeHandler E reqBodyQuery w
  = (Ok {| status := 400;
           body :=
             match naturalLanguageQuerySchema_parse reqBodyQuery with
             | Ok _ => BMessage noActiveConfigurationMessage
             | Raise error => BInvalid (lit "Invalid request data") (message error)
             end |}, w).
Proof.
  intros H. rewrite executeHandler_unfold, H.
  destruct (naturalLanguageQuerySchema_parse reqBodyQuery) as [query|error] eqn:P.
  - reflexivity.
  - unfold executeCatch. now rewrite (parse_raises_ZodError _ _ P).
Qed.

(** C5, as the code has it.  With no active configuration every execute
    request is answered 400 and the world is left as it was: nothing is
    written to the history and the generator is not called.  The message is
    the no-active-configuration one when the body passes the request
    schema, and the invalid-request one when it does not. *)
Theorem execute_without_active_configuration
    (E : Env) (w : World) (reqBodyQuery : JsValue) :
  getActiveDatabaseConfig w.(storage) = None ->
  exists resp,
    executeHandler E reqBodyQuery w = (Ok resp, w)
    /\ resp.(status) = 400
    /\ match naturalLanguageQuerySchema_parse reqBodyQuery with
       | Ok _ => resp.(body) = BMessage noActiveConfigurationMessage
       | Raise error =>
           resp.(body) = BInvalid (lit "Invalid request data") (message error)
       end.
Proof.
  intros H. rewrite (executeHandler_without_active E w reqBodyQuery H).
  eexists. split; [reflexivity|]. split; [reflexivity|].
  now destruct (naturalLanguageQuerySchema_parse reqBodyQuery).
Qed.

(** No configuration active, a well-formed question: 400 with the
    no-active-configuration message, nothing else happens. *)
Lemma execute_without_active_configuration_witness :
  let E := stubEnv (answerSql "SELECT * FROM t LIMIT 100") pgThreeRows in
  let w := worldOf storeWithoutActive in
  executeHandler E (VString (lit "Show all rows")) w
  = (Ok {| status := 400; body := BMessage noActiveConfigurationMessage |}, w).
Proof.
  intros E w.
  destruct (execute_without_active_configuration E w (VString (lit "Show all rows")))
    as [[st b] [R [S B]]].
  - reflexivity.
  - simpl in S, B. subst st b. exact R.
Defined.

(** C5 as stated fails: with an empty question the 400 carries the
    invalid-request message, not the no-active-configuration one. *)
Lemma no_active_message_counterexample :
  ~ (forall (E : Env) (w : World) (reqBodyQuery : JsValue),
        getActiveDatabaseConfig w.(storage) = None ->
        fst (executeHandler E reqBodyQuery w)
        = Ok {| status := 400; body := BMessage noActiveConfigurationMessage |}).
Proof.
  intros H.
  specialize (H (stubEnv (answerSql "SELECT 1") pgThreeRows)
                (worldOf storeWithoutActive) (VString []) eq_refl).
  vm_compute in H. discriminate H.
Qed.

Lemma runGeneratedSql_never_400 (E : Env) (query : jsstring)
    (sqlResult : SQLGenerationResult) (dbConfig : DatabaseConfig) (startTime : Z)
    (b : Body) :
  answers (runGeneratedSql E query sqlResult dbConfig startTime)
          (fun r => r <> Ok {| status := 400; body := b |}).
Proof.
  unfold runGeneratedSql. apply answers_tryCatch.
  - repeat (apply answers_bind; [intros ?|trivial]).
    apply answers_ret. discriminate.
  - intros e. repeat (apply answers_bind; [intros ?|discriminate]).
    apply answers_ret. discriminate.
Qed.

(** Whatever the generated SQL, the branch taken is the execution one. *)
Lemma executeWithConfig_never_400 (E : Env) (query : jsstring)
    (dbConfig : DatabaseConfig) (b : Body) :
  answers (executeWithConfig E query dbConfig)
          (fun r => r <> Ok {| status := 400; body := b |}).
Proof.
  unfold executeWithConfig.
  repeat (apply answers_bind; [intros ?|discriminate]).
  cbn [ToBoolean_Promise negb].
  apply runGeneratedSql_never_400.
Qed.

Lemma executeCatch_never_400_message (error : Thrown) (m : jsstring) :
  answers (executeCatch error)
          (fun r => r <> Ok {| status := 400; body := BMessage m |}).
Proof.
  unfold executeCatch. destruct (instanceofZodError error);
    apply answers_ret; discriminate.
Qed.

Lemma executeHandler_with_active (E : Env) (w : World) (reqBodyQuery : JsValue)
    (dbConfig : DatabaseConfig) (m : jsstring) :
  getActiveDatabaseConfig w.(storage) = Some dbConfig ->
  fst (executeHandler E reqBodyQuery w)
  <> Ok {| status := 400; body := BMessage m |}.
Proof.
  intros H. rewrite executeHandler_unfold, H.
  destruct (naturalLanguageQuerySchema_parse reqBodyQuery) as [query|error].
  - apply (answers_tryCatch (executeWithConfig E query dbConfig) executeCatch
             (fun r => r <> Ok {| status := 400; body := BMessage m |})).
    + eapply answers_weaken; [|apply executeWithConfig_never_400].
      intros [a|e] Hr; [exact Hr | exact I].
    + intros e. apply executeCatch_never_400_message.
  - apply executeCatch_never_400_message.
Qed.

(** C10. After start-up the store holds exactly the default PostgreSQL
    configuration, id 1, active.  As long as no configuration is written,
    that is after any sequence of execute, history, clear-history and
    connection-test requests, [getActiveDatabaseConfig] returns it, and no
    execute request is answered with the no-active-configuration 400. *)
Theorem fresh_store_default_active (E : Env) :
  let default :=
    {| cfg_id := 1;
       cfg_name := lit "Default PostgreSQL";
       cfg_type := lit "postgresql";
       cfg_connectionString := defaultConnectionString E.(DATABASE_URL);
       cfg_isActive := Some true;
       cfg_createdAt := Some (E.(clock) 0) |} in
  (initialWorld E).(storage).(databaseConfigs) = [(1, default)]
  /\ forall rs : list Request,
       let w := serveAll E rs (initialWorld E) in
       storage_getActiveDatabaseConfig w = (Ok (Some default), w)
       /\ forall reqBodyQuery : JsValue,
            fst (executeHandler E reqBodyQuery w)
            <> Ok {| status := 400; body := BMessage noActiveConfigurationMessage |}.
Proof.
  intros default. split; [reflexivity|]. intros rs w.
  assert (A : getActiveDatabaseConfig (storage w) = Some default).
  { pose proof (serveAll_configs E rs (initialWorld E)) as C.
    unfold configsOf in C. fold w in C.
    unfold getActiveDatabaseConfig. rewrite C. reflexivity. }
  split.
  - unfold storage_getActiveDatabaseConfig. now rewrite A.
  - intros reqBodyQuery.
    now apply (executeHandler_with_active E w reqBodyQuery default).
Qed.

(** C1, where the code departs from it.  The validator resolves to false
    on "DROP TABLE t", yet the handler, which tests the promise and not
    its value, answers 200, has called [executeQuery] on a second
    connection with that statement, and has logged one success entry
    without an error message.  With any collaborators the handler is the
    pipeline with the gate left out, and for no request and store at all
    is the security-validation 400 the answer. *)
Theorem unsafe_sql_reaches_backend :
  let E := stubEnv (answerSql "DROP TABLE t") pgThreeRows in
  let r := executeHandler E (VString (lit "Show all rows")) (initialWorld E) in
  validateSQLQuery E.(toUpperCase) (VString (lit "DROP TABLE t")) = Resolved false
  /\ fst r
     = Ok {| status := 200;
             body := BExecution (lit "Show all rows") (lit "DROP TABLE t")
                       threeRows 10 3 (lit "success") |}
  /\ filter isExecuteQuery (snd r).(trace)
     = [EvExecuteQuery 0 schemaQuery_postgresql;
        EvExecuteQuery 1 (lit "DROP TABLE t")]
  /\ map (fun e => (e.(qh_generatedSql), e.(qh_status), e.(qh_errorMessage)))
         (JsMap.values (snd r).(storage).(queryHistory))
     = [(lit "DROP TABLE t", lit "success", None)]
  /\ (forall (E' : Env) (query : jsstring) (dbConfig : DatabaseConfig),
        executeWithConfig E' query dbConfig
        = (startTime <- Date_now E' ;;
           tableSchema <- fetchTableSchema E' dbConfig ;;
           sqlResult <- generateSQLFromNaturalLanguage E' query
                          dbConfig.(cfg_type) tableSchema ;;
           runGeneratedSql E' query sqlResult dbConfig startTime))
  /\ forall (E' : Env) (w : World) (reqBodyQuery : JsValue),
       fst (executeHandler E' reqBodyQuery w)
       <> Ok {| status := 400; body := BMessage securityValidationMessage |}.
Proof.
  intros E r. split; [reflexivity|].
  split; [vm_compute; reflexivity|].
  split; [vm_compute; reflexivity|].
  split; [vm_compute; reflexivity|].
  split; [reflexivity|].
  intros E' w reqBodyQuery.
  destruct (getActiveDatabaseConfig (storage w)) as [dbConfig|] eqn:A.
  - now apply (executeHandler_with_active E' w reqBodyQuery dbConfig).
  - rewrite (executeHandler_without_active E' w reqBodyQuery A). simpl.
    destruct (naturalLanguageQuerySchema_parse reqBodyQuery); [|discriminate].
    intros H. vm_compute in H. discriminate.
Qed.

(** C2, where the code departs from it.  When the generated statement fails
    on the backend, the execution connection (number 1) is created and
    queried but never closed, and its pool stays open; when the schema
    query fails, the same holds of the schema connection (number 0).  When
    both statements succeed, every connection created is closed. *)
Theorem connection_not_closed_on_failure :
  let sql := "SELECT * FROM t LIMIT 100"%string in
  let run pg :=
    let E := stubEnv (answerSql sql) pg in
    snd (executeHandler E (VString (lit "Show all rows")) (initialWorld E)) in
  let execFails := run (pgFailsOn (lit sql)) in
  let schemaFails := run (pgFailsOn schemaQuery_postgresql) in
  let succeeds := run pgThreeRows in
  (created execFails.(trace) = [0; 1]%nat
   /\ existsb (isCloseOf 1) execFails.(trace) = false
   /\ poolAt execFails.(connections) 1 = true
   /\ allClosed execFails.(trace) = false)
  /\ (created schemaFails.(trace) = [0; 1]%nat
      /\ existsb (isCloseOf 0) schemaFails.(trace) = false
      /\ poolAt schemaFails.(connections) 0 = true
      /\ allClosed schemaFails.(trace) = false)
  /\ (created succeeds.(trace) = [0; 1]%nat
      /\ allClosed succeeds.(trace) = true).
Proof.
  vm_compute. repeat split.
Qed.

(** ** executeQuery *)

Lemma executeQuery_PostgreSQL_fails (E : Env) (w : World) (h : nat)
    (query : jsstring) (error : Thrown) :
  kindAt w.(connections) h = PostgreSQL ->
  E.(pg_query) h query = Raise error ->
  fst (executeQuery E h query w)
  = Raise (executionError (E.(clock) (S w.(reads)) - E.(clock) w.(reads)) error).
Proof.
  intros K Q.
  unfold executeQuery, bind, emit, getKind. simpl. rewrite K.
  unfold PostgreSQLConnection_executeQuery, PostgreSQLConnection_getPool.
  unfold tryCatch, bind, Date_now, getPoolField, setPool, liftExc, ret, raise.
  simpl. destruct (poolAt (connections w) h); simpl; rewrite Q; reflexivity.
Qed.

Lemma executeQuery_SQLServer_connect_fails (E : Env) (w : World) (h : nat)
    (query : jsstring) (error : Thrown) :
  kindAt w.(connections) h = SQLServer ->
  poolAt w.(connections) h = false ->
  E.(mssql_connect) h = Raise error ->
  fst (executeQuery E h query w)
  = Raise (executionError (E.(clock) (S w.(reads)) - E.(clock) w.(reads)) error).
Proof.
  intros K P C.
  unfold executeQuery, bind, emit, getKind. simpl. rewrite K.
  unfold SQLServerConnection_executeQuery, SQLServerConnection_getPool.
  unfold tryCatch, bind, Date_now, getPoolField, setPool, liftExc, ret, raise.
  simpl. rewrite P. simpl. rewrite C. reflexivity.
Qed.

Lemma executeQuery_SQLServer_query_fails (E : Env) (w : World) (h : nat)
    (query : jsstring) (error : Thrown) :
  kindAt w.(connections) h = SQLServer ->
  poolAt w.(connections) h = true \/ E.(mssql_connect) h = Ok tt ->
  E.(mssql_query) h query = Raise error ->
  fst (executeQuery E h query w)
  = Raise (executionError (E.(clock) (S w.(reads)) - E.(clock) w.(reads)) error).
Proof.
  intros K P Q.
  unfold executeQuery, bind, emit, getKind. simpl. rewrite K.
  unfold SQLServerConnection_executeQuery, SQLServerConnection_getPool.
  unfold tryCatch, bind, Date_now, getPoolField, setPool, liftExc, ret, raise.
  simpl. destruct (poolAt (connections w) h) eqn:Pool; simpl.
  - rewrite Q. reflexivity.
  - destruct P as [P|P]; [discriminate|]. rewrite P, Q. reflexivity.
Qed.

(** C7. On either backend, when the underlying call fails (the query on
    PostgreSQL; the first connect or the query on SQL Server),
    [executeQuery] throws an [Error] whose message is
    "Query execution failed (<elapsed>ms): <underlying>", where elapsed is
    the difference of the clock readings taken just before the call and
    just after the failure, and underlying is the message of the failure
    (or "Unknown error" when what was thrown is not an [Error]). *)
Theorem executeQuery_failure_is_wrapped
    (E : Env) (w : World) (h : nat) (query : jsstring) (error : Thrown) :
  (kindAt w.(connections) h = PostgreSQL /\ E.(pg_query) h query = Raise error)
  \/ (kindAt w.(connections) h = SQLServer
      /\ poolAt w.(connections) h = false
      /\ E.(mssql_connect) h = Raise error)
  \/ (kindAt w.(connections) h = SQLServer
      /\ (poolAt w.(connections) h = true \/ E.(mssql_connect) h = Ok tt)
      /\ E.(mssql_query) h query = Raise error) ->
  let elapsed := E.(clock) (S w.(reads)) - E.(clock) w.(reads) in
  let underlying :=
    if instanceofError error then message error else lit "Unknown error" in
  let text :=
    lit "Query execution failed (" ++ numberToString elapsed ++ lit "ms): "
    ++ underlying in
  fst (executeQuery E h query w) = Raise (Error text)
  /\ includes text (numberToString elapsed) = true
  /\ includes text underlying = true
  /\ (instanceofError error = true -> includes text (message error) = true).
Proof.
  intros H elapsed underlying text.
  assert (R : fst (executeQuery E h query w) = Raise (Error text)).
  { destruct H as [[K Q] | [[K [P C]] | [K [P Q]]]].
    - now apply executeQuery_PostgreSQL_fails.
    - now apply executeQuery_SQLServer_connect_fails.
    - now apply executeQuery_SQLServer_query_fails. }
  split; [exact R|]. split; [apply includes_infix|].
  assert (U : includes text underlying = true).
  { subst text. rewrite !app_assoc. apply includes_suffix. }
  split; [exact U|].
  intros I. subst underlying. now rewrite I in U.
Qed.

(** A PostgreSQL connection whose query fails with
    "relation does not exist" after 10 ms. *)
Lemma executeQuery_failure_is_wrapped_witness :
  let E := stubEnv (answerSql "SELECT * FROM t") (pgFailsOn (lit "SELECT * FROM t")) in
  fst (executeQuery E 0 (lit "SELECT * FROM t") (worldWithConnection PostgreSQL))
  = @Raise QueryResult
      (Error (lit "Query execution failed (10ms): relation does not exist")).
Proof.
  intros E.
  apply (executeQuery_failure_is_wrapped E (worldWithConnection PostgreSQL) 0
           (lit "SELECT * FROM t") (Error (lit "relation does not exist"))).
  left. split; reflexivity.
Defined.

(* ================================================================= *)
(** * Further properties of the store *)

Section JsMapLookup.

Context {V : Type}.

Lemma JsMap_get_set_same (m : JsMap.t V) (k : Z) (v : V) :
  JsMap.get (JsMap.set m k v) k = Some v.
Proof.
  induction m as [|[k' v'] m IH]; simpl.
  - now rewrite Z.eqb_refl.
  - destruct (Z.eqb_spec k' k) as [->|N]; simpl.
    + now rewrite Z.eqb_refl.
    + destruct (Z.eqb_spec k' k); [contradiction | exact IH].
Qed.

Lemma JsMap_get_set_other (m : JsMap.t V) (k k' : Z) (v : V) :
  k' <> k -> JsMap.get (JsMap.set m k v) k' = JsMap.get m k'.
Proof.
  intros N. induction m as [|[k0 v0] m IH]; simpl.
  - destruct (Z.eqb_spec k k'); [congruence | reflexivity].
  - destruct (Z.eqb_spec k0 k) as [->|N0]; simpl.
    + destruct (Z.eqb_spec k k'); [congruence | reflexivity].
    + now rewrite IH.
Qed.

Lemma JsMap_get_None (m : JsMap.t V) (k : Z) :
  ~ In k (JsMap.keys m) -> JsMap.get m k = None.
Proof.
  induction m as [|[k' v'] m IH]; simpl; [reflexivity|].
  intros H. destruct (Z.eqb_spec k' k) as [->|N]; [tauto|].
  apply IH. tauto.
Qed.

(** A new key is appended at the end. *)
Lemma JsMap_set_fresh (m : JsMap.t V) (k : Z) (v : V) :
  ~ In k (JsMap.keys m) -> JsMap.set m k v = m ++ [(k, v)].
Proof.
  induction m as [|[k' v'] m IH]; simpl; [reflexivity|].
  intros H. destruct (Z.eqb_spec k' k) as [->|N]; [tauto|].
  f_equal. apply IH. tauto.
Qed.

(** An existing key keeps its place, and the keys stay as they are. *)
Lemma JsMap_keys_set_existing (m : JsMap.t V) (k : Z) (v : V) :
  In k (JsMap.keys m) -> JsMap.keys (JsMap.set m k v) = JsMap.keys m.
Proof.
  induction m as [|[k' v'] m IH]; simpl; [tauto|].
  intros H. destruct (Z.eqb_spec k' k) as [->|N]; simpl; [reflexivity|].
  f_equal. apply IH. destruct H; [contradiction | assumption].
Qed.

Lemma JsMap_get_Some_key (m : JsMap.t V) (k : Z) (v : V) :
  JsMap.get m k = Some v -> In k (JsMap.keys m).
Proof.
  intros H. apply JsMap_get_In in H. apply (in_map fst) in H. exact H.
Qed.

Lemma JsMap_get_mutate (f : V -> V) (m : JsMap.t V) (k : Z) :
  JsMap.get (JsMap.mutate f m) k = option_map f (JsMap.get m k).
Proof.
  induction m as [|[k' v'] m IH]; simpl; [reflexivity|].
  destruct (k' =? k); [reflexivity | exact IH].
Qed.

End JsMapLookup.

Lemma below_not_In (ks : list Z) (n : Z) :
  Forall (fun k => k < n) ks -> ~ In n ks.
Proof.
  intros F H. rewrite Forall_forall in F. specialize (F n H). lia.
Qed.

(** *** Identifiers *)

Lemma historyFresh_create (st : MemStorage) (entry : InsertQueryHistory) (now : Z) :
  historyFresh st -> historyFresh (snd (createQueryHistoryEntry st entry now)).
Proof.
  intros (B & D & K). pose proof (below_not_In _ _ B) as F.
  unfold historyFresh, createQueryHistoryEntry. simpl.
  rewrite (JsMap_set_fresh _ _ _ F).
  unfold JsMap.keys in *. rewrite map_app. simpl. repeat split.
  - apply Forall_app. split.
    + eapply Forall_impl; [|exact B]. simpl. intros; lia.
    + constructor; [lia | constructor].
  - apply NoDup_app_remove_l with (l := []). simpl.
    rewrite <- (rev_involutive (map fst (queryHistory st) ++ [currentHistoryId st])).
    apply NoDup_rev. rewrite rev_app_distr. simpl.
    constructor; [rewrite <- in_rev; exact F | now apply NoDup_rev].
  - apply Forall_app. split; [exact K|]. constructor; [reflexivity | constructor].
Qed.

Lemma configsFresh_create (st : MemStorage) (config : InsertDatabaseConfig) (now : Z) :
  configsFresh st -> configsFresh (snd (createDatabaseConfig st config now)).
Proof.
  unfold configsFresh, createDatabaseConfig. simpl. intros B.
  apply Forall_forall. intros k Hk. apply JsMap_keys_set in Hk.
  destruct Hk as [->|Hk]; [lia|].
  assert (Hk' : In k (JsMap.keys (databaseConfigs st))).
  { destruct (truthy (ins_isActive config));
      [now rewrite JsMap_keys_mutate in Hk | exact Hk]. }
  rewrite Forall_forall in B. specialize (B k Hk'). lia.
Qed.

Lemma configsFresh_update (st : MemStorage) (id : Z)
    (config : PartialInsertDatabaseConfig) :
  configsFresh st -> configsFresh (snd (updateDatabaseConfig st id config)).
Proof.
  unfold configsFresh, updateDatabaseConfig. intros B.
  destruct (JsMap.get (databaseConfigs st) id) as [existing|] eqn:G; [|exact B].
  simpl. apply JsMap_get_Some_key in G.
  rewrite JsMap_keys_set_existing.
  - destruct (truthy _); [now rewrite JsMap_keys_mutate | exact B].
  - destruct (truthy _); [now rewrite JsMap_keys_mutate | exact G].
Qed.

Lemma counters_after_calls (cs : list StorageCall) (st : MemStorage) :
  historyFresh st -> configsFresh st ->
  let st' := calls st cs in
  historyFresh st' /\ configsFresh st'
  /\ st'.(currentHistoryId)
     = st.(currentHistoryId)
       + Z.of_nat (List.length (filter isCreateQueryHistoryEntry cs))
  /\ st'.(currentConfigId)
     = st.(currentConfigId)
       + Z.of_nat (List.length (filter isCreateDatabaseConfig cs)).
Proof.
  revert st. induction cs as [|c cs IH]; intros st H C; simpl.
  - split; [exact H|]. split; [exact C|]. split; lia.
  - assert (Hc : historyFresh (call st c) /\ configsFresh (call st c)
                 /\ currentHistoryId (call st c)
                    = currentHistoryId st
                      + (if isCreateQueryHistoryEntry c then 1 else 0)
                 /\ currentConfigId (call st c)
                    = currentConfigId st
                      + (if isCreateDatabaseConfig c then 1 else 0)).
    { destruct c as [config now | id config | entry now | ];
        cbv beta iota delta [call isCreateQueryHistoryEntry isCreateDatabaseConfig].
      - split; [exact H|]. split; [now apply configsFresh_create|].
        split; simpl; lia.
      - split.
        + unfold updateDatabaseConfig.
          destruct (JsMap.get (databaseConfigs st) id); exact H.
        + split; [now apply configsFresh_update|].
          unfold updateDatabaseConfig.
          destruct (JsMap.get (databaseConfigs st) id); simpl; lia.
      - split; [now apply historyFresh_create|]. split; [exact C|].
        split; simpl; lia.
      - split.
        + unfold historyFresh, clearQueryHistory. simpl.
          repeat split; constructor.
        + split; [exact C|]. split; simpl; lia. }
    destruct Hc as (H' & C' & Eh & Ec).
    destruct (IH (call st c) H' C') as (H'' & C'' & Eh' & Ec').
    fold (calls (call st c) cs) in *.
    split; [exact H''|]. split; [exact C''|]. split.
    + rewrite Eh', Eh. destruct (isCreateQueryHistoryEntry c); simpl; lia.
    + rewrite Ec', Ec. destruct (isCreateDatabaseConfig c); simpl; lia.
Qed.

Lemma fresh_new (DATABASE_URL : option jsstring) (now : Z) :
  historyFresh (MemStorage_new DATABASE_URL now)
  /\ configsFresh (MemStorage_new DATABASE_URL now).
Proof.
  split.
  - repeat split; constructor.
  - unfold configsFresh. simpl. constructor; [lia | constructor].
Qed.

(** X1. Identifiers are issued consecutively and never again: after any
    sequence of store calls the history counter is one more than the number
    of entries ever created (clearing the history does not reset it), the
    configuration counter two more than the number of configurations
    created, every stored key is below its counter, and a new history entry
    takes the counter's value, is found under it and adds exactly one
    entry. *)
Theorem identifiers_are_never_reused
    (DATABASE_URL : option jsstring) (now : Z) (cs : list StorageCall)
    (entry : InsertQueryHistory) (now' : Z) :
  let st := calls (MemStorage_new DATABASE_URL now) cs in
  let newEntry := fst (createQueryHistoryEntry st entry now') in
  let st' := snd (createQueryHistoryEntry st entry now') in
  st.(currentHistoryId)
  = 1 + Z.of_nat (List.length (filter isCreateQueryHistoryEntry cs))
  /\ st.(currentConfigId)
     = 2 + Z.of_nat (List.length (filter isCreateDatabaseConfig cs))
  /\ historyFresh st /\ configsFresh st
  /\ newEntry.(qh_id) = st.(currentHistoryId)
  /\ ~ In newEntry.(qh_id) (JsMap.keys st.(queryHistory))
  /\ st'.(queryHistory) = st.(queryHistory) ++ [(newEntry.(qh_id), newEntry)]
  /\ JsMap.get st'.(queryHistory) newEntry.(qh_id) = Some newEntry.
Proof.
  intros st newEntry st'.
  destruct (fresh_new DATABASE_URL now) as [H0 C0].
  destruct (counters_after_calls cs _ H0 C0) as (H & C & Eh & Ec).
  fold st in H, C, Eh, Ec.
  change (currentHistoryId (MemStorage_new DATABASE_URL now)) with 1 in Eh.
  change (currentConfigId (MemStorage_new DATABASE_URL now)) with 2 in Ec.
  assert (F : ~ In (currentHistoryId st) (JsMap.keys (queryHistory st))).
  { apply below_not_In. apply H. }
  split; [lia|]. split; [lia|]. split; [exact H|]. split; [exact C|].
  split; [reflexivity|]. split; [exact F|]. split.
  - subst st'. unfold createQueryHistoryEntry. simpl.
    now rewrite (JsMap_set_fresh _ _ _ F).
  - subst st' newEntry. unfold createQueryHistoryEntry. simpl.
    apply JsMap_get_set_same.
Qed.

(** *** The listing *)

Lemma sorted_firstn_skipn (l : list QueryHistory) (n : nat) :
  StronglySorted newerFirst l ->
  forall x y, In x (firstn n l) -> In y (skipn n l) -> newerFirst x y.
Proof.
  intros S. revert n. induction S as [|a l S IH F]; intros n x y Hx Hy.
  - rewrite firstn_nil in Hx. destruct Hx.
  - destruct n as [|n]; simpl in Hx, Hy; [destruct Hx|].
    destruct Hx as [<-|Hx].
    + rewrite Forall_forall in F. apply F.
      rewrite <- (firstn_skipn n l). apply in_or_app. now right.
    + now apply (IH n).
Qed.

(** X2. For a limit that is a non-negative integer the listing holds
    exactly min(limit, number of stored entries) entries, and they are the
    most recent ones: together with the omitted entries they make up the
    stored ones, and no omitted entry is more recent than a listed one. *)
Theorem listing_keeps_the_most_recent (st : MemStorage) (n : Z) :
  0 <= n ->
  let listed := getQueryHistory st (Some (Int n)) in
  List.length listed
  = Nat.min (Z.to_nat n) (List.length st.(queryHistory))
  /\ exists omitted,
       Permutation (listed ++ omitted) (JsMap.values st.(queryHistory))
       /\ forall x y, In x listed -> In y omitted ->
                      y.(qh_createdAt) <= x.(qh_createdAt).
Proof.
  intros Hn listed. subst listed. unfold getQueryHistory, slice0. simpl.
  set (sorted := sortByCreatedAtDesc (JsMap.values (queryHistory st))).
  assert (L : List.length sorted = List.length (queryHistory st)).
  { subst sorted. rewrite (Permutation_length (sortByCreatedAtDesc_Permutation _)).
    unfold JsMap.values. apply length_map. }
  destruct (Z.ltb_spec n 0) as [Hlt|_]; [lia|].
  set (k := Z.to_nat (Z.min n (Z.of_nat (List.length sorted)))).
  assert (K : k = Nat.min (Z.to_nat n) (List.length sorted)) by (subst k; lia).
  split.
  - rewrite length_firstn. lia.
  - exists (skipn k sorted). split.
    + rewrite firstn_skipn. apply sortByCreatedAtDesc_Permutation.
    + intros x y Hx Hy.
      apply (sorted_firstn_skipn sorted k (sortByCreatedAtDesc_sorted _) x y Hx Hy).
Qed.

(** Three stored entries, limit 2: the entries of times 30 and 20 are
    listed, the one of time 10 is omitted. *)
Lemma listing_keeps_the_most_recent_witness :
  List.length (getQueryHistory storeWithHistory (Some (Int 2))) = 2%nat.
Proof.
  apply (proj1 (listing_keeps_the_most_recent storeWithHistory 2 ltac:(lia))).
Defined.

Lemma insertByCreatedAt_filter (t : Z) (x : QueryHistory) (l : list QueryHistory) :
  filter (createdAtTime t) (insertByCreatedAt x l)
  = filter (createdAtTime t) (x :: l).
Proof.
  induction l as [|y l IH]; [reflexivity|].
  cbn [insertByCreatedAt].
  destruct (Z.leb_spec (qh_createdAt y) (qh_createdAt x)) as [L|L];
    [reflexivity|].
  cbn [filter]. rewrite IH. cbn [filter]. unfold createdAtTime.
  destruct (Z.eqb_spec (qh_createdAt x) t) as [Ex|Ex];
    destruct (Z.eqb_spec (qh_createdAt y) t) as [Ey|Ey];
    try reflexivity; lia.
Qed.

Lemma sortByCreatedAtDesc_filter (t : Z) (l : list QueryHistory) :
  filter (createdAtTime t) (sortByCreatedAtDesc l) = filter (createdAtTime t) l.
Proof.
  induction l as [|x l IH]; [reflexivity|].
  cbn [sortByCreatedAtDesc]. rewrite insertByCreatedAt_filter.
  cbn [filter]. now rewrite IH.
Qed.

(** X3. The sort is stable: entries created in the same millisecond are
    listed in the order in which they were stored, the earlier one first,
    whenever the limit does not cut the listing. *)
Theorem listing_keeps_insertion_order_on_ties (st : MemStorage) (n t : Z) :
  Z.of_nat (List.length st.(queryHistory)) <= n ->
  filter (createdAtTime t) (getQueryHistory st (Some (Int n)))
  = filter (createdAtTime t) (JsMap.values st.(queryHistory)).
Proof.
  intros Hn. unfold getQueryHistory, slice0. simpl.
  set (sorted := sortByCreatedAtDesc (JsMap.values (queryHistory st))).
  assert (L : List.length sorted = List.length (queryHistory st)).
  { subst sorted. rewrite (Permutation_length (sortByCreatedAtDesc_Permutation _)).
    unfold JsMap.values. apply length_map. }
  destruct (Z.ltb_spec n 0) as [Hlt|_]; [lia|].
  rewrite firstn_all2 by lia.
  apply sortByCreatedAtDesc_filter.
Qed.

(** Two entries stored in the same millisecond: the first stored is listed
    first. *)
Lemma listing_keeps_insertion_order_on_ties_witness :
  let st :=
    calls (MemStorage_new None 0)
      [CallCreateQueryHistoryEntry successEntry 10;
       CallCreateQueryHistoryEntry successEntry 10] in
  map qh_id (filter (createdAtTime 10) (getQueryHistory st (Some (Int 50))))
  = [1; 2].
Proof.
  intros st.
  rewrite (listing_keeps_insertion_order_on_ties st 50 10); [reflexivity|].
  vm_compute. discriminate.
Defined.

(** *** Configurations *)

Lemma find_app_inactive {A} (f : A -> bool) (l : list A) (x : A) :
  f x = false -> find f (l ++ [x]) = find f l.
Proof.
  intros H. induction l as [|y l IH]; simpl; [now rewrite H|].
  destruct (f y); [reflexivity | exact IH].
Qed.

(** X4. In every state the store reaches, a configuration created without
    the active flag takes the counter's value as id, which was not in use,
    is found under it, leaves every other lookup as it was and leaves the
    active configuration as it was. *)
Theorem inactive_create_keeps_active
    (DATABASE_URL : option jsstring) (now : Z) (cs : list StorageCall)
    (config : InsertDatabaseConfig) (now' : Z) :
  truthy config.(ins_isActive) = false ->
  let st := calls (MemStorage_new DATABASE_URL now) cs in
  let newConfig := fst (createDatabaseConfig st config now') in
  let st' := snd (createDatabaseConfig st config now') in
  newConfig.(cfg_id) = st.(currentConfigId)
  /\ newConfig.(cfg_isActive) = Some false
  /\ getDatabaseConfig st newConfig.(cfg_id) = None
  /\ getDatabaseConfig st' newConfig.(cfg_id) = Some newConfig
  /\ (forall id, id <> newConfig.(cfg_id) ->
                 getDatabaseConfig st' id = getDatabaseConfig st id)
  /\ getActiveDatabaseConfig st' = getActiveDatabaseConfig st.
Proof.
  intros H st newConfig st'.
  destruct (fresh_new DATABASE_URL now) as [H0 C0].
  destruct (counters_after_calls cs _ H0 C0) as (_ & C & _ & _).
  fold st in C. pose proof (below_not_In _ _ C) as F.
  assert (V : nullish (ins_isActive config) false = false).
  { destruct (ins_isActive config) as [[|]|]; simpl in *; congruence. }
  split; [reflexivity|]. split; [simpl; now rewrite V|].
  split; [now apply JsMap_get_None|].
  subst st' newConfig. unfold createDatabaseConfig, getDatabaseConfig. simpl.
  rewrite H. split; [apply JsMap_get_set_same|]. split.
  - intros id N. now apply JsMap_get_set_other.
  - unfold getActiveDatabaseConfig. simpl.
    rewrite (JsMap_set_fresh _ _ _ F). unfold JsMap.values.
    rewrite map_app. simpl. apply find_app_inactive. simpl. now rewrite V.
Qed.

(** The default store and a second configuration without a flag. *)
Lemma inactive_create_keeps_active_witness :
  getActiveDatabaseConfig storeTwoConfigs
  = getActiveDatabaseConfig (MemStorage_new None 0).
Proof.
  destruct (inactive_create_keeps_active None 0 [] inactiveInput 5 eq_refl)
    as (_ & _ & _ & _ & _ & A).
  exact A.
Defined.

(** X5. [updateDatabaseConfig] on an id that is not stored returns
    [undefined] and leaves the store untouched; on a stored id it returns
    the merged object, which keeps its id and creation time and is found
    under that id afterwards, and it neither adds nor removes a key nor
    moves a counter nor touches the history. *)
Theorem update_keeps_keys (st : MemStorage) (id : Z)
    (config : PartialInsertDatabaseConfig) :
  let st' := snd (updateDatabaseConfig st id config) in
  match getDatabaseConfig st id with
  | None => updateDatabaseConfig st id config = (None, st)
  | Some existing =>
      let updated := spread existing config in
      fst (updateDatabaseConfig st id config) = Some updated
      /\ updated.(cfg_id) = existing.(cfg_id)
      /\ updated.(cfg_createdAt) = existing.(cfg_createdAt)
      /\ getDatabaseConfig st' id = Some updated
  end
  /\ JsMap.keys st'.(databaseConfigs) = JsMap.keys st.(databaseConfigs)
  /\ st'.(queryHistory) = st.(queryHistory)
  /\ st'.(currentConfigId) = st.(currentConfigId)
  /\ st'.(currentHistoryId) = st.(currentHistoryId).
Proof.
  intros st'. subst st'. unfold getDatabaseConfig, updateDatabaseConfig.
  destruct (JsMap.get (databaseConfigs st) id) as [existing|] eqn:G.
  - simpl. split.
    + repeat split. apply JsMap_get_set_same.
    + repeat split. apply JsMap_get_Some_key in G.
      rewrite JsMap_keys_set_existing;
        destruct (truthy _); try rewrite JsMap_keys_mutate; auto.
  - repeat split.
Qed.

(* ================================================================= *)
(** * Further properties of the connections *)

Lemma poolAt_setPoolAt_same (cs : list Connection) (h : nat) (p : bool) :
  poolAt (setPoolAt cs h p) h = if (h <? List.length cs)%nat then p else false.
Proof.
  unfold poolAt. revert h. induction cs as [|c cs IH]; intros [|h]; simpl;
    try reflexivity.
  apply IH.
Qed.

Lemma poolAt_setPoolAt_other (cs : list Connection) (h h' : nat) (p : bool) :
  h' <> h -> poolAt (setPoolAt cs h p) h' = poolAt cs h'.
Proof.
  unfold poolAt. revert h h'.
  induction cs as [|c cs IH]; intros [|h] [|h'] N; simpl; try reflexivity;
    try congruence.
  apply IH. congruence.
Qed.

Lemma kindAt_setPoolAt (cs : list Connection) (h h' : nat) (p : bool) :
  kindAt (setPoolAt cs h p) h' = kindAt cs h'.
Proof.
  unfold kindAt. revert h h'.
  induction cs as [|c cs IH]; intros [|h] [|h']; simpl; try reflexivity.
  apply IH.
Qed.

Lemma length_setPoolAt (cs : list Connection) (h : nat) (p : bool) :
  List.length (setPoolAt cs h p) = List.length cs.
Proof.
  revert h. induction cs as [|c cs IH]; intros [|h]; simpl; try reflexivity.
  now rewrite IH.
Qed.

Ltac step :=
  cbn [negb orb andb succeeds fst snd connections reads storage trace].

Ltac run_connection :=
  unfold executeQuery, testConnection, close;
  unfold bind at 1 2; unfold emit, getKind; cbn [fst snd connections reads];
  match goal with
  | K : kindAt _ _ = _ |- _ => rewrite K
  end;
  unfold SQLServerConnection_executeQuery, PostgreSQLConnection_executeQuery,
    SQLServerConnection_testConnection, PostgreSQLConnection_testConnection,
    SQLServerConnection_close, PostgreSQLConnection_close,
    SQLServerConnection_getPool, PostgreSQLConnection_getPool;
  unfold tryCatch, bind, Date_now, getPoolField, setPool, setConnections,
    liftExc, ret, raise;
  cbn [fst snd connections reads storage trace].

Lemma testConnection_result (E : Env) (w : World) (h : nat) :
  fst (testConnection E h w)
  = Ok match kindAt w.(connections) h with
       | PostgreSQL => succeeds (E.(pg_query) h (lit "SELECT 1"))
       | SQLServer =>
           (poolAt w.(connections) h || succeeds (E.(mssql_connect) h))
           && succeeds (E.(mssql_query) h (lit "SELECT 1"))
       end.
Proof.
  destruct (kindAt (connections w) h) eqn:K; run_connection.
  - destruct (poolAt (connections w) h); step.
    + now destruct (mssql_query E h (lit "SELECT 1")).
    + destruct (mssql_connect E h); step; [|reflexivity].
      now destruct (mssql_query E h (lit "SELECT 1")).
  - destruct (poolAt (connections w) h); step;
      now destruct (pg_query E h (lit "SELECT 1")).
Qed.

Lemma testConnection_trace (E : Env) (w : World) (h : nat) :
  (snd (testConnection E h w)).(trace) = w.(trace) ++ [EvTestConnection h].
Proof.
  destruct (kindAt (connections w) h) eqn:K; run_connection;
    destruct (poolAt (connections w) h); step;
    repeat match goal with
           | |- context [match ?x with Ok _ => _ | Raise _ => _ end] =>
               destruct x; step
           end;
    reflexivity.
Qed.

(** X6. [testConnection] never throws: it resolves to true exactly when
    the underlying calls succeed (the query "SELECT 1" on PostgreSQL; the
    first connect, when the pool is still null, and the query on SQL
    Server) and to false otherwise. *)
Theorem testConnection_never_throws (E : Env) (w : World) (h : nat) :
  fst (testConnection E h w)
  = Ok match kindAt w.(connections) h with
       | PostgreSQL => succeeds (E.(pg_query) h (lit "SELECT 1"))
       | SQLServer =>
           (poolAt w.(connections) h || succeeds (E.(mssql_connect) h))
           && succeeds (E.(mssql_query) h (lit "SELECT 1"))
       end.
Proof. apply testConnection_result. Qed.

Lemma close_unfold (E : Env) (w : World) (h : nat) :
  close E h w
  = let w0 :=
      {| storage := w.(storage); reads := w.(reads);
         connections := w.(connections);
         trace := w.(trace) ++ [EvClose h] |} in
    if poolAt w.(connections) h
    then match match kindAt w.(connections) h with
               | SQLServer => E.(mssql_close) h
               | PostgreSQL => E.(pg_end) h
               end with
         | Ok _ =>
             (Ok tt,
              {| storage := w.(storage); reads := w.(reads);
                 connections := setPoolAt w.(connections) h false;
                 trace := w.(trace) ++ [EvClose h] |})
         | Raise e => (Raise e, w0)
         end
    else (Ok tt, w0).
Proof.
  destruct (kindAt (connections w) h) eqn:K; run_connection;
    destruct (poolAt (connections w) h); step; try reflexivity;
    match goal with |- context [match ?x with _ => _ end] => now destruct x end.
Qed.

(** X7. [close] is safe on a connection that never connected and is
    idempotent: with a null pool it succeeds without asking the driver and
    changes nothing but the trace; once it has succeeded the pool is null,
    so a further [close] succeeds whatever the driver would answer. *)
Theorem close_is_idempotent (E : Env) (w : World) (h : nat) :
  (poolAt w.(connections) h = false ->
   close E h w
   = (Ok tt,
      {| storage := w.(storage); reads := w.(reads);
         connections := w.(connections);
         trace := w.(trace) ++ [EvClose h] |}))
  /\ (fst (close E h w) = Ok tt ->
      poolAt (snd (close E h w)).(connections) h = false
      /\ forall E' : Env, fst (close E' h (snd (close E h w))) = Ok tt).
Proof.
  assert (A : forall (E0 : Env) (w0 : World),
             poolAt (connections w0) h = false ->
             close E0 h w0
             = (Ok tt,
                {| storage := storage w0; reads := reads w0;
                   connections := connections w0;
                   trace := trace w0 ++ [EvClose h] |})).
  { intros E0 w0 P. rewrite close_unfold, P. reflexivity. }
  split; [apply A|].
  intros S.
  assert (P : poolAt (connections (snd (close E h w))) h = false).
  { rewrite close_unfold in S |- *. cbv zeta in S |- *.
    destruct (poolAt (connections w) h) eqn:P; [|exact P].
    destruct (match kindAt (connections w) h with
              | SQLServer => mssql_close E h
              | PostgreSQL => pg_end E h
              end); [|discriminate S].
    step. rewrite poolAt_setPoolAt_same. now destruct (_ <? _)%nat. }
  split; [exact P|].
  intros E'. now rewrite (A E' _ P).
Qed.

(** A PostgreSQL connection that ran a query is closed twice; the second
    time the driver would refuse. *)
Lemma close_is_idempotent_witness :
  let E := stubEnv (answerSql "SELECT 1") pgThreeRows in
  let E' :=
    {| toUpperCase := E.(toUpperCase); toLowerCase := E.(toLowerCase);
       parseInt := E.(parseInt); clock := E.(clock);
       DATABASE_URL := E.(DATABASE_URL); llm := E.(llm);
       mssql_connect := E.(mssql_connect); mssql_query := E.(mssql_query);
       mssql_close := E.(mssql_close); pg_query := E.(pg_query);
       pg_end := fun _ => Raise (Error (lit "Called end on pool more than once"));
       schemaText := E.(schemaText) |} in
  let w := snd (executeQuery E 0 (lit "SELECT 1") (worldWithConnection PostgreSQL)) in
  poolAt w.(connections) 0 = true
  /\ fst (close E' 0 (snd (close E 0 w))) = Ok tt.
Proof.
  intros E E' w. split; [reflexivity|].
  apply (proj2 (close_is_idempotent E w 0)). reflexivity.
Defined.

Lemma executeQuery_PostgreSQL_succeeds (E : Env) (w : World) (h : nat)
    (query : jsstring) (result : PgResult) :
  kindAt w.(connections) h = PostgreSQL ->
  E.(pg_query) h query = Ok result ->
  fst (executeQuery E h query w)
  = Ok {| recordset := nullish result.(pg_rows) [];
          rowsAffected := [nullish result.(pg_rowCount) 0];
          executionTime := E.(clock) (S w.(reads)) - E.(clock) w.(reads) |}.
Proof.
  intros K Q. run_connection.
  destruct (poolAt (connections w) h); step; rewrite Q; reflexivity.
Qed.

Lemma executeQuery_SQLServer_succeeds (E : Env) (w : World) (h : nat)
    (query : jsstring) (result : MssqlResult) :
  kindAt w.(connections) h = SQLServer ->
  poolAt w.(connections) h = true \/ E.(mssql_connect) h = Ok tt ->
  E.(mssql_query) h query = Ok result ->
  fst (executeQuery E h query w)
  = Ok {| recordset := nullish result.(mssql_recordset) [];
          rowsAffected := nullish result.(mssql_rowsAffected) [0];
          executionTime := E.(clock) (S w.(reads)) - E.(clock) w.(reads) |}.
Proof.
  intros K P Q. run_connection.
  destruct (poolAt (connections w) h) eqn:Pool; step.
  - rewrite Q. reflexivity.
  - destruct P as [P|P]; [discriminate|]. rewrite P. step. rewrite Q.
    reflexivity.
Qed.

(** X8. On either backend a successful query resolves to the rows of the
    driver ([[]] when it gave none), the affected counts ([[0]] when SQL
    Server gave none; the row count or 0 on PostgreSQL) and the difference
    of the two clock readings around the call. *)
Theorem executeQuery_success (E : Env) (w : World) (h : nat) (query : jsstring) :
  let elapsed := E.(clock) (S w.(reads)) - E.(clock) w.(reads) in
  (forall result,
      kindAt w.(connections) h = PostgreSQL ->
      E.(pg_query) h query = Ok result ->
      fst (executeQuery E h query w)
      = Ok {| recordset := nullish result.(pg_rows) [];
              rowsAffected := [nullish result.(pg_rowCount) 0];
              executionTime := elapsed |})
  /\ (forall result,
        kindAt w.(connections) h = SQLServer ->
        poolAt w.(connections) h = true \/ E.(mssql_connect) h = Ok tt ->
        E.(mssql_query) h query = Ok result ->
        fst (executeQuery E h query w)
        = Ok {| recordset := nullish result.(mssql_recordset) [];
                rowsAffected := nullish result.(mssql_rowsAffected) [0];
                executionTime := elapsed |}).
Proof.
  intros elapsed. split.
  - intros result. apply executeQuery_PostgreSQL_succeeds.
  - intros result. apply executeQuery_SQLServer_succeeds.
Qed.

(** A PostgreSQL query answered with three rows after 10 ms. *)
Lemma executeQuery_success_witness :
  let E := stubEnv (answerSql "SELECT 1") pgThreeRows in
  fst (executeQuery E 0 (lit "SELECT * FROM t") (worldWithConnection PostgreSQL))
  = Ok {| recordset := threeRows; rowsAffected := [3]; executionTime := 10 |}.
Proof.
  intros E.
  apply (proj1 (executeQuery_success E (worldWithConnection PostgreSQL) 0
                  (lit "SELECT * FROM t"))
           {| pg_rows := Some threeRows; pg_rowCount := Some 3 |});
    reflexivity.
Defined.

Lemma executeQuery_connections (E : Env) (w : World) (h : nat) (query : jsstring) :
  (snd (executeQuery E h query w)).(connections)
  = if poolAt w.(connections) h then w.(connections)
    else setPoolAt w.(connections) h true.
Proof.
  destruct (kindAt (connections w) h) eqn:K; run_connection;
    destruct (poolAt (connections w) h) eqn:Pool; step;
    repeat match goal with
           | |- context [match ?x with Ok _ => _ | Raise _ => _ end] =>
               destruct x; step
           end;
    reflexivity.
Qed.

(** X9. The pool is created on first use and kept, whatever the outcome:
    after [executeQuery] on an existing connection its pool is non-null,
    also when the call failed.  On SQL Server a pool whose connect failed
    is therefore never connected again: every later [executeQuery] goes
    straight to the query. *)
Theorem pool_is_kept_after_first_use
    (E : Env) (w : World) (h : nat) (query : jsstring) :
  (h < List.length w.(connections))%nat ->
  let w1 := snd (executeQuery E h query w) in
  poolAt w1.(connections) h = true
  /\ (kindAt w.(connections) h = SQLServer ->
      forall (E' : Env) (query' : jsstring),
        fst (executeQuery E' h query' w1)
        = match E'.(mssql_query) h query' with
          | Ok result =>
              Ok {| recordset := nullish result.(mssql_recordset) [];
                    rowsAffected := nullish result.(mssql_rowsAffected) [0];
                    executionTime :=
                      E'.(clock) (S w1.(reads)) - E'.(clock) w1.(reads) |}
          | Raise error =>
              Raise (executionError
                       (E'.(clock) (S w1.(reads)) - E'.(clock) w1.(reads)) error)
          end).
Proof.
  intros Hh w1.
  assert (L : (h <? List.length (connections w))%nat = true)
    by now apply Nat.ltb_lt.
  assert (P : poolAt (connections w1) h = true
              /\ kindAt (connections w1) h = kindAt (connections w) h).
  { subst w1. rewrite executeQuery_connections.
    destruct (poolAt (connections w) h) eqn:Pool; [now split|].
    now rewrite poolAt_setPoolAt_same, L, kindAt_setPoolAt. }
  destruct P as [P K1]. split; [exact P|].
  intros K E' query'. rewrite K in K1.
  destruct (E'.(mssql_query) h query') as [result|error] eqn:Q.
  - apply executeQuery_SQLServer_succeeds; [exact K1 | now left | exact Q].
  - apply executeQuery_SQLServer_query_fails; [exact K1 | now left | exact Q].
Qed.

(** A SQL Server connection whose connect fails: the pool is kept, and the
    next call is answered by the query alone. *)
Lemma pool_is_kept_after_first_use_witness :
  let E := stubEnv (answerSql "SELECT 1") pgThreeRows in
  let failing :=
    {| toUpperCase := E.(toUpperCase); toLowerCase := E.(toLowerCase);
       parseInt := E.(parseInt); clock := E.(clock);
       DATABASE_URL := E.(DATABASE_URL); llm := E.(llm);
       mssql_connect := fun _ => Raise (Error (lit "ECONNREFUSED"));
       mssql_query := E.(mssql_query);
       mssql_close := E.(mssql_close); pg_query := E.(pg_query);
       pg_end := E.(pg_end); schemaText := E.(schemaText) |} in
  let w := worldWithConnection SQLServer in
  succeeds (fst (executeQuery failing 0 (lit "SELECT 1") w)) = false
  /\ poolAt (snd (executeQuery failing 0 (lit "SELECT 1") w)).(connections) 0
     = true.
Proof.
  intros E failing w. split; [reflexivity|].
  apply (pool_is_kept_after_first_use failing w 0 (lit "SELECT 1")).
  simpl. lia.
Defined.

(* ================================================================= *)
(** * Further properties of the routes *)

(** ** The query form and the request schema *)

Lemma trim_nil : trim [] = [].
Proof. reflexivity. Qed.

(** X10. Whatever the query form submits passes the request schema of the
    execute route: the form sends the text unchanged, and only when its
    trimmed text is not empty and it has at most 500 code units. *)
Theorem submitted_query_passes_schema (currentQuery payload : jsstring) :
  (handleExecuteQuery currentQuery = Mutate payload
   <-> payload = currentQuery
       /\ trim currentQuery <> []
       /\ (List.length currentQuery <= 500)%nat)
  /\ (handleExecuteQuery currentQuery = Mutate payload ->
      naturalLanguageQuerySchema_parse (VString payload) = Ok currentQuery).
Proof.
  assert (F : handleExecuteQuery currentQuery = Mutate payload
              -> payload = currentQuery
                 /\ trim currentQuery <> []
                 /\ (List.length currentQuery <= 500)%nat).
  { unfold handleExecuteQuery.
    destruct (trim currentQuery) as [|c s]; cbn [isEmpty]; [discriminate|].
    destruct (Nat.ltb_spec 500 (List.length currentQuery)) as [L|L];
      [discriminate|].
    intros H. injection H as <-. split; [reflexivity|]. split; [discriminate|lia]. }
  split; [split; [exact F|]|].
  - intros (-> & T & L). unfold handleExecuteQuery.
    destruct (trim currentQuery) as [|c s]; [contradiction|]. cbn [isEmpty].
    destruct (Nat.ltb_spec 500 (List.length currentQuery)) as [G|G];
      [lia | reflexivity].
  - intros H. destruct (F H) as (-> & T & L).
    unfold naturalLanguageQuerySchema_parse.
    destruct currentQuery as [|c s]; [now rewrite trim_nil in T|].
    replace (List.length (c :: s) <=? 500)%nat with true
      by (symmetry; now apply Nat.leb_le).
    reflexivity.
Qed.

(** A short question is submitted as typed and passes the schema. *)
Lemma submitted_query_passes_schema_witness :
  naturalLanguageQuerySchema_parse (VString (lit "Show all rows"))
  = Ok (lit "Show all rows").
Proof.
  apply (proj2 (submitted_query_passes_schema (lit "Show all rows")
                  (lit "Show all rows"))).
  reflexivity.
Defined.

(** ** POST /api/queries/execute, path by path *)

(** X11. A body that fails the request schema is answered 400 "Invalid
    request data" with the schema's issues, whatever the store holds, and
    the world is left as it was: no configuration is read, no connection is
    opened, the generator is not called and nothing is logged. *)
Theorem malformed_request_is_rejected_first
    (E : Env) (w : World) (reqBodyQuery : JsValue) (error : Thrown) :
  naturalLanguageQuerySchema_parse reqBodyQuery = Raise error ->
  executeHandler E reqBodyQuery w
  = (Ok {| status := 400;
           body := BInvalid (lit "Invalid request data") (message error) |}, w).
Proof.
  intros P. rewrite executeHandler_unfold, P. unfold executeCatch.
  now rewrite (parse_raises_ZodError _ _ P).
Qed.

(** A query of 501 code units on the fresh store. *)
Lemma malformed_request_is_rejected_first_witness :
  let E := stubEnv (answerSql "SELECT 1") pgThreeRows in
  fst (executeHandler E (VString (repeat 97%N 501)) (initialWorld E))
  = Ok {| status := 400;
          body := BInvalid (lit "Invalid request data")
                           (lit "query: length out of range") |}.
Proof.
  intros E.
  rewrite (malformed_request_is_rejected_first E (initialWorld E)
             (VString (repeat 97%N 501))
             (ZodError (lit "query: length out of range")));
    reflexivity.
Defined.

Lemma fetchTableSchema_returns (E : Env) (dbConfig : DatabaseConfig) (w : World) :
  exists tableSchema, fst (fetchTableSchema E dbConfig w) = Ok tableSchema.
Proof.
  revert w.
  change (answers (fetchTableSchema E dbConfig)
            (fun r => exists tableSchema, r = Ok tableSchema)).
  unfold fetchTableSchema. apply answers_tryCatch.
  - intros w. destruct (fst _); [eauto | exact I].
  - intros e. apply answers_ret. eauto.
Qed.

(** X12. When the generator fails, the request is answered 500 with the
    message "Failed to generate SQL: <underlying>" and nothing is written
    to the store: an attempt whose generation failed is not logged. *)
Theorem generation_failure_is_not_logged
    (E : Env) (w : World) (reqBodyQuery : JsValue) (query : jsstring)
    (dbConfig : DatabaseConfig) (error : Thrown) :
  naturalLanguageQuerySchema_parse reqBodyQuery = Ok query ->
  getActiveDatabaseConfig w.(storage) = Some dbConfig ->
  (forall tableSchema,
      E.(llm) query dbConfig.(cfg_type) tableSchema = Raise error) ->
  fst (executeHandler E reqBodyQuery w)
  = Ok {| status := 500;
          body := BMessage
                    (lit "Failed to generate SQL: "
                     ++ (if instanceofError error then message error
                         else lit "Unknown error")) |}
  /\ (snd (executeHandler E reqBodyQuery w)).(storage) = w.(storage).
Proof.
  intros P A G.
  enough (H : exists w',
             executeHandler E reqBodyQuery w
             = (Ok {| status := 500;
                      body := BMessage
                                (lit "Failed to generate SQL: "
                                 ++ (if instanceofError error then message error
                                     else lit "Unknown error")) |}, w')
             /\ storage w' = storage w).
  { destruct H as (w' & -> & S). now split. }
  rewrite executeHandler_unfold, P, A.
  unfold tryCatch, executeWithConfig. unfold bind at 1.
  unfold Date_now at 1. unfold bind at 1.
  set (w1 := {| storage := storage w; reads := S (reads w);
                connections := connections w; trace := trace w |}).
  destruct (fetchTableSchema_returns E dbConfig w1) as [ts F].
  pose proof (preserves_fetchTableSchema E dbConfig w1) as S.
  destruct (fetchTableSchema E dbConfig w1) as [r w2].
  simpl in F, S. subst r.
  unfold bind at 1, generateSQLFromNaturalLanguage, bind, emit.
  rewrite G. unfold raise, executeCatch, ret. simpl.
  eexists. split; [reflexivity|]. exact S.
Qed.

(** The model is unreachable on the fresh store. *)
Lemma generation_failure_is_not_logged_witness :
  let E := stubEnv (Raise (Error (lit "Connection error."))) pgThreeRows in
  fst (executeHandler E (VString (lit "Show all rows")) (initialWorld E))
  = Ok {| status := 500;
          body := BMessage (lit "Failed to generate SQL: Connection error.") |}.
Proof.
  intros E.
  destruct (generation_failure_is_not_logged E (initialWorld E)
              (VString (lit "Show all rows")) (lit "Show all rows")
              (mkDatabaseConfig 1 (lit "Default PostgreSQL") (lit "postgresql")
                 (lit "postgresql://localhost:5432/sample") (Some true) (Some 1000))
              (Error (lit "Connection error."))) as [R _];
    [reflexivity | reflexivity | intros; reflexivity | exact R].
Defined.

Ltac run_handler :=
  cbv beta iota zeta delta
    [tryCatch bind ret raise liftExc emit Date_now executeWithConfig
     fetchTableSchema runGeneratedSql generateSQLFromNaturalLanguage
     createConnection SQLServerConnection_new PostgreSQLConnection_new
     newConnection storage_createQueryHistoryEntry setStorage executeCatch
     ToBoolean_Promise negb instanceofZodError instanceofError message
     fst snd storage reads connections trace sql explanation].

(** X13. The configuration routes accept any type, so the active
    configuration may name a backend the factory does not know.  Then the
    schema block is skipped silently, the generator is still called (with
    an empty schema), no connection object is created, one error attempt
    with the message "Unsupported database type: <type>" is logged, and the
    answer is a 500 that carries the generated SQL. *)
Theorem unsupported_type_fails_after_generation
    (E : Env) (w : World) (reqBodyQuery : JsValue) (query : jsstring)
    (dbConfig : DatabaseConfig) (result : LlmJson) :
  naturalLanguageQuerySchema_parse reqBodyQuery = Ok query ->
  getActiveDatabaseConfig w.(storage) = Some dbConfig ->
  jsstring_eqb (E.(toLowerCase) dbConfig.(cfg_type)) (lit "sqlserver") = false ->
  jsstring_eqb (E.(toLowerCase) dbConfig.(cfg_type)) (lit "postgresql") = false ->
  E.(llm) query dbConfig.(cfg_type) [] = Ok result ->
  let generatedSql := orEmpty result.(json_sql) in
  let errorMessage := lit "Unsupported database type: " ++ dbConfig.(cfg_type) in
  let entry :=
    {| iqh_naturalQuery := query;
       iqh_generatedSql := generatedSql;
       iqh_status := lit "error";
       iqh_errorMessage := Some errorMessage;
       iqh_executionTime :=
         Some (E.(clock) (S w.(reads)) - E.(clock) w.(reads));
       iqh_rowCount := Some 0;
       iqh_results := None |} in
  executeHandler E reqBodyQuery w
  = (Ok {| status := 500;
           body := BFailure (lit "Database query failed: " ++ errorMessage)
                            generatedSql |},
     {| storage :=
          snd (createQueryHistoryEntry w.(storage) entry
                 (E.(clock) (S (S w.(reads)))));
        reads := S (S (S w.(reads)));
        connections := w.(connections);
        trace := w.(trace) ++ [EvGenerate query dbConfig.(cfg_type) []] |}).
Proof.
  intros P A N1 N2 G generatedSql errorMessage entry.
  rewrite executeHandler_unfold, P, A.
  run_handler. rewrite N1, N2. run_handler. rewrite G. run_handler.
  rewrite ?N1, ?N2. run_handler. reflexivity.
Qed.

(** The active configuration names MySQL. *)
Lemma unsupported_type_fails_after_generation_witness :
  let E := stubEnv (answerSql "SELECT * FROM t LIMIT 100") pgThreeRows in
  let st :=
    calls (MemStorage_new None 0)
      [CallCreateDatabaseConfig
         {| ins_name := lit "MYSQL Connection"; ins_type := lit "mysql";
            ins_connectionString := lit "mysql://localhost/db";
            ins_isActive := Some true |} 5] in
  fst (executeHandler E (VString (lit "Show all rows")) (worldOf st))
  = Ok {| status := 500;
          body := BFailure
                    (lit "Database query failed: Unsupported database type: mysql")
                    (lit "SELECT * FROM t LIMIT 100") |}.
Proof.
  intros E st.
  rewrite (unsupported_type_fails_after_generation E (worldOf st)
             (VString (lit "Show all rows")) (lit "Show all rows")
             {| cfg_id := 2; cfg_name := lit "MYSQL Connection";
                cfg_type := lit "mysql";
                cfg_connectionString := lit "mysql://localhost/db";
                cfg_isActive := Some true; cfg_createdAt := Some 5 |}
             {| json_sql := Some (lit "SELECT * FROM t LIMIT 100");
                json_explanation := None |});
    reflexivity.
Defined.

Lemma kindAt_new (cs : list Connection) (c : Connection) :
  kindAt (cs ++ [c]) (List.length cs) = c.(conn_kind).
Proof.
  unfold kindAt. rewrite nth_error_app2 by lia. now rewrite Nat.sub_diag.
Qed.

Lemma poolAt_new (cs : list Connection) (c : Connection) :
  poolAt (cs ++ [c]) (List.length cs) = c.(conn_pool).
Proof.
  unfold poolAt. rewrite nth_error_app2 by lia. now rewrite Nat.sub_diag.
Qed.

Lemma setPoolAt_new (cs : list Connection) (c : Connection) (p : bool) :
  setPoolAt (cs ++ [c]) (List.length cs) p
  = cs ++ [{| conn_kind := c.(conn_kind);
              conn_connectionString := c.(conn_connectionString);
              conn_pool := p |}].
Proof.
  induction cs as [|c0 cs IH]; simpl; [reflexivity|]. now rewrite IH.
Qed.

Ltac run_all :=
  repeat
    (progress
       (cbv beta iota zeta delta
          [tryCatch bind ret raise liftExc emit Date_now executeWithConfig
           fetchTableSchema runGeneratedSql generateSQLFromNaturalLanguage
           createConnection SQLServerConnection_new PostgreSQLConnection_new
           newConnection storage_createQueryHistoryEntry setStorage executeCatch
           executeQuery close getKind getPoolField setPool setConnections
           PostgreSQLConnection_executeQuery PostgreSQLConnection_getPool
           PostgreSQLConnection_close
           ToBoolean_Promise negb instanceofZodError instanceofError message];
        cbn [fst snd storage reads connections trace sql explanation
             conn_kind conn_pool conn_connectionString
             recordset rowsAffected executionTime];
        rewrite ?kindAt_new, ?poolAt_new, ?setPoolAt_new)).

(** X14. The success path on PostgreSQL.  With an active configuration
    whose type lowercases to "postgresql", a schema query, a generated
    statement and both [end] calls that succeed, the answer is 200 with the
    rows of the driver, their number as [rowCount] and the time the backend
    call took; exactly one attempt is logged, a success holding the same
    rows; two connection objects were created and both are closed; and the
    statement went to the backend as generated, whatever the validator
    would say of it.  The schema query is the PostgreSQL one only when the
    type is spelled exactly "postgresql". *)
Theorem execute_success_path
    (E : Env) (w : World) (reqBodyQuery : JsValue) (query : jsstring)
    (dbConfig : DatabaseConfig) (schema generated : PgResult) (result : LlmJson) :
  let h0 := List.length w.(connections) in
  let h1 := S h0 in
  let schemaQuery :=
    if jsstring_eqb dbConfig.(cfg_type) (lit "postgresql")
    then schemaQuery_postgresql else schemaQuery_sqlserver in
  let tableSchema :=
    if (0 <? List.length (nullish schema.(pg_rows) []))%nat
    then E.(schemaText) (nullish schema.(pg_rows) []) else [] in
  let generatedSql := orEmpty result.(json_sql) in
  let rows := nullish generated.(pg_rows) [] in
  let elapsed :=
    E.(clock) (4 + w.(reads))%nat - E.(clock) (3 + w.(reads))%nat in
  let entry :=
    {| iqh_naturalQuery := query;
       iqh_generatedSql := generatedSql;
       iqh_status := lit "success";
       iqh_errorMessage := None;
       iqh_executionTime := Some elapsed;
       iqh_rowCount := Some (Z.of_nat (List.length rows));
       iqh_results := Some rows |} in
  let closed :=
    {| conn_kind := PostgreSQL;
       conn_connectionString := VString dbConfig.(cfg_connectionString);
       conn_pool := false |} in
  naturalLanguageQuerySchema_parse reqBodyQuery = Ok query ->
  getActiveDatabaseConfig w.(storage) = Some dbConfig ->
  E.(toLowerCase) dbConfig.(cfg_type) = lit "postgresql" ->
  E.(pg_query) h0 schemaQuery = Ok schema ->
  E.(pg_end) h0 = Ok tt ->
  E.(llm) query dbConfig.(cfg_type) tableSchema = Ok result ->
  E.(pg_query) h1 generatedSql = Ok generated ->
  E.(pg_end) h1 = Ok tt ->
  executeHandler E reqBodyQuery w
  = (Ok {| status := 200;
           body := BExecution query generatedSql rows elapsed
                              (Z.of_nat (List.length rows)) (lit "success") |},
     {| storage :=
          snd (createQueryHistoryEntry w.(storage) entry
                 (E.(clock) (5 + w.(reads))%nat));
        reads := (6 + w.(reads))%nat;
        connections := (w.(connections) ++ [closed]) ++ [closed];
        trace :=
          w.(trace)
          ++ [EvCreateConnection h0 PostgreSQL;
              EvExecuteQuery h0 schemaQuery;
              EvClose h0;
              EvGenerate query dbConfig.(cfg_type) tableSchema;
              EvCreateConnection h1 PostgreSQL;
              EvExecuteQuery h1 generatedSql;
              EvClose h1] |}).
Proof.
  intros h0 h1 schemaQuery tableSchema generatedSql rows elapsed entry closed
    P A L S0 C0 G S1 C1.
  rewrite executeHandler_unfold, P, A.
  assert (H1 : List.length (connections w ++ [closed]) = h1).
  { rewrite length_app. simpl. subst h1 h0. lia. }
  rewrite <- H1 in S1, C1. subst h1 h0.
  run_all. rewrite L.
  change (jsstring_eqb (lit "postgresql") (lit "sqlserver")) with false.
  change (jsstring_eqb (lit "postgresql") (lit "postgresql")) with true.
  run_all. fold schemaQuery. rewrite S0. run_all. rewrite C0. run_all.
  fold tableSchema. rewrite G. run_all. fold closed generatedSql.
  rewrite S1. run_all. rewrite C1.
  unfold createQueryHistoryEntry. run_all.
  rewrite H1. repeat rewrite <- app_assoc. reflexivity.
Qed.

(** The stub scenario: "Show all rows" on the fresh store, three rows. *)
Lemma execute_success_path_witness :
  let E := stubEnv (answerSql "SELECT * FROM t LIMIT 100") pgThreeRows in
  fst (executeHandler E (VString (lit "Show all rows")) (initialWorld E))
  = Ok {| status := 200;
          body := BExecution (lit "Show all rows")
                    (lit "SELECT * FROM t LIMIT 100") threeRows 10 3
                    (lit "success") |}.
Proof.
  intros E.
  rewrite (execute_success_path E (initialWorld E)
             (VString (lit "Show all rows")) (lit "Show all rows")
             {| cfg_id := 1; cfg_name := lit "Default PostgreSQL";
                cfg_type := lit "postgresql";
                cfg_connectionString := lit "postgresql://localhost:5432/sample";
                cfg_isActive := Some true; cfg_createdAt := Some 1000 |}
             {| pg_rows := Some threeRows; pg_rowCount := Some 3 |}
             {| pg_rows := Some threeRows; pg_rowCount := Some 3 |}
             {| json_sql := Some (lit "SELECT * FROM t LIMIT 100");
                json_explanation := None |});
    reflexivity.
Defined.

(** ** What a request adds to the history *)

Lemma appended_refl (st : MemStorage) : historyFresh st -> appended [] st st.
Proof. intros H. split; [exact H|]. split; [now rewrite app_nil_r | reflexivity]. Qed.

Lemma appended_same (st st' : MemStorage) :
  historyFresh st -> st' = st -> appended [] st st'.
Proof. intros H ->. now apply appended_refl. Qed.

Lemma appended_trans (a b : list QueryHistory) (st st1 st2 : MemStorage) :
  appended a st st1 -> appended b st1 st2 -> appended (a ++ b) st st2.
Proof.
  intros (_ & V1 & C1) (F2 & V2 & C2). split; [exact F2|]. split.
  - now rewrite V2, V1, app_assoc.
  - now rewrite C2.
Qed.

Lemma appended_create (st : MemStorage) (entry : InsertQueryHistory) (now : Z) :
  historyFresh st ->
  appended [fst (createQueryHistoryEntry st entry now)] st
           (snd (createQueryHistoryEntry st entry now)).
Proof.
  intros H. split; [now apply historyFresh_create|]. split; [|reflexivity].
  pose proof (below_not_In _ _ (proj1 H)) as F.
  unfold createQueryHistoryEntry. simpl.
  rewrite (JsMap_set_fresh _ _ _ F). unfold JsMap.values. now rewrite map_app.
Qed.

Lemma appends_weaken {A} (m : M A) (Q Q' : Exc A -> list QueryHistory -> Prop) :
  (forall r a, Q r a -> Q' r a) -> appends m Q -> appends m Q'.
Proof.
  intros I H w Hw. destruct (H w Hw) as (a & App & HQ). exists a. auto.
Qed.

Lemma appends_frame {A} (m : M A) (Q : Exc A -> list QueryHistory -> Prop) :
  preserves storage m -> (forall r, Q r []) -> appends m Q.
Proof.
  intros P HQ w Hw. exists []. split; [|apply HQ].
  apply appended_same; [exact Hw | apply P].
Qed.

Lemma appends_bind {A B} (m : M A) (k : A -> M B)
    (Q : Exc B -> list QueryHistory -> Prop) :
  appends m
    (fun r a1 =>
       match r with
       | Ok x => appends (k x) (fun r' a2 => Q r' (a1 ++ a2))
       | Raise e => Q (Raise e) a1
       end) ->
  appends (bind m k) Q.
Proof.
  intros H w Hw. destruct (H w Hw) as (a1 & App1 & HQ). unfold bind.
  destruct (m w) as [[x|e] w1]; simpl in *.
  - destruct (HQ w1 (proj1 App1)) as (a2 & App2 & HQ2).
    exists (a1 ++ a2). split; [now apply (appended_trans _ _ _ _ _ App1)|].
    exact HQ2.
  - exists a1. now split.
Qed.

Lemma appends_tryCatch {A} (m : M A) (handler : Thrown -> M A)
    (Q : Exc A -> list QueryHistory -> Prop) :
  appends m
    (fun r a1 =>
       match r with
       | Ok x => Q (Ok x) a1
       | Raise e => appends (handler e) (fun r' a2 => Q r' (a1 ++ a2))
       end) ->
  appends (tryCatch m handler) Q.
Proof.
  intros H w Hw. destruct (H w Hw) as (a1 & App1 & HQ). unfold tryCatch.
  destruct (m w) as [[x|e] w1]; simpl in *.
  - exists a1. now split.
  - destruct (HQ w1 (proj1 App1)) as (a2 & App2 & HQ2).
    exists (a1 ++ a2). split; [now apply (appended_trans _ _ _ _ _ App1)|].
    exact HQ2.
Qed.

(** A step that does not touch the store. *)
Lemma appends_bind_frame {A B} (m : M A) (k : A -> M B)
    (Q : Exc B -> list QueryHistory -> Prop) :
  preserves storage m ->
  (forall x, appends (k x) Q) ->
  (forall e, Q (Raise e) []) ->
  appends (bind m k) Q.
Proof.
  intros P Hk He. apply appends_bind. apply appends_frame; [exact P|].
  intros [x|e]; [apply Hk | apply He].
Qed.

Lemma appends_ret {A} (x : A) (Q : Exc A -> list QueryHistory -> Prop) :
  Q (Ok x) [] -> appends (ret x) Q.
Proof.
  intros H w Hw. exists []. split; [now apply appended_refl | exact H].
Qed.

Lemma appends_createEntry (E : Env) (entry : InsertQueryHistory) :
  appends (storage_createQueryHistoryEntry E entry)
    (fun r a =>
       exists e,
         r = Ok e /\ a = [e]
         /\ e.(qh_status) = entry.(iqh_status)
         /\ e.(qh_generatedSql) = entry.(iqh_generatedSql)
         /\ e.(qh_results) = entry.(iqh_results)
         /\ e.(qh_rowCount) = entry.(iqh_rowCount)
         /\ e.(qh_errorMessage) = entry.(iqh_errorMessage)).
Proof.
  intros w Hw. unfold storage_createQueryHistoryEntry, bind, Date_now.
  cbn [fst snd storage reads].
  set (now := clock E (reads w)).
  exists [fst (createQueryHistoryEntry (storage w) entry now)].
  destruct (createQueryHistoryEntry (storage w) entry now) as [e st] eqn:C.
  cbn [fst snd setStorage storage]. split.
  - pose proof (appended_create (storage w) entry now Hw) as App.
    now rewrite C in App.
  - exists e. assert (e = fst (createQueryHistoryEntry (storage w) entry now))
      as -> by now rewrite C.
    repeat split.
Qed.

Lemma appends_bind_Date_now {B} (E : Env) (k : Z -> M B)
    (Q : Exc B -> list QueryHistory -> Prop) :
  (forall now, appends (k now) Q) -> appends (bind (Date_now E) k) Q.
Proof.
  intros Hk. apply appends_bind. intros w Hw. exists []. split.
  - now apply appended_refl.
  - cbn. apply Hk.
Qed.

(** The [catch] of the execution block, entered after [before] was added. *)
Lemma runGeneratedSql_catch_accounted (E : Env) (query : jsstring)
    (sqlResult : SQLGenerationResult) (startTime : Z) (dbError : Thrown)
    (before : list QueryHistory) :
  (List.length before <= 1)%nat ->
  appends
    (now <- Date_now E ;;
     storage_createQueryHistoryEntry E
       {| iqh_naturalQuery := query;
          iqh_generatedSql := sqlResult.(sql);
          iqh_status := lit "error";
          iqh_errorMessage :=
            Some (if instanceofError dbError then message dbError
                  else lit "Database execution failed");
          iqh_executionTime := Some (now - startTime);
          iqh_rowCount := Some 0;
          iqh_results := None |} ;;;
     ret {| status := 500;
            body := BFailure
                      (lit "Database query failed: "
                       ++ (if instanceofError dbError then message dbError
                           else lit "Database execution failed"))
                      sqlResult.(sql) |})
    (fun r a => exists resp, r = Ok resp /\ accounted resp (before ++ a)).
Proof.
  intros L. apply appends_bind_Date_now. intros now.
  apply appends_bind. eapply appends_weaken; [|apply appends_createEntry].
  intros r a (e & -> & -> & St & Sq & _ & _ & Em).
  apply appends_ret. eexists. split; [reflexivity|].
  unfold accounted. cbn [body status]. split; [reflexivity|].
  exists before, e. eexists. rewrite app_nil_r.
  repeat split; try eassumption.
Qed.

Lemma runGeneratedSql_accounted (E : Env) (query : jsstring)
    (sqlResult : SQLGenerationResult) (dbConfig : DatabaseConfig) (startTime : Z) :
  appends (runGeneratedSql E query sqlResult dbConfig startTime)
    (fun r a => exists resp, r = Ok resp /\ accounted resp a).
Proof.
  unfold runGeneratedSql. apply appends_tryCatch.
  apply appends_bind_frame;
    [apply preserves_createConnection | intros connection | intros e ].
  - apply appends_bind_frame;
      [apply preserves_executeQuery | intros queryResult | intros e ].
    + apply appends_bind. eapply appends_weaken; [|apply appends_createEntry].
      intros r a (e & -> & -> & St & Sq & Rs & Rc & _).
      apply appends_bind_frame; [apply preserves_close | intros [] | intros e' ].
      * apply appends_ret. cbn [app]. eexists. split; [reflexivity|].
        unfold accounted. cbn [body status]. split; [reflexivity|].
        exists e. repeat split; assumption.
      * cbn [app].
        apply (runGeneratedSql_catch_accounted E query sqlResult startTime e' [e]).
        simpl. lia.
    + apply (runGeneratedSql_catch_accounted E query sqlResult startTime e []).
      simpl. lia.
  - apply (runGeneratedSql_catch_accounted E query sqlResult startTime e []).
    simpl. lia.
Qed.

Lemma executeWithConfig_accounted (E : Env) (query : jsstring)
    (dbConfig : DatabaseConfig) :
  appends (executeWithConfig E query dbConfig)
    (fun r a =>
       match r with
       | Ok resp => accounted resp a
       | Raise _ => a = []
       end).
Proof.
  unfold executeWithConfig. apply appends_bind_Date_now. intros startTime.
  apply appends_bind_frame;
    [apply preserves_fetchTableSchema | intros tableSchema | reflexivity].
  apply appends_bind_frame;
    [apply preserves_generate | intros sqlResult | reflexivity].
  cbn [ToBoolean_Promise negb].
  eapply appends_weaken; [|apply runGeneratedSql_accounted].
  intros r a (resp & -> & H). exact H.
Qed.

Lemma executeCatch_accounted (error : Thrown) :
  appends (executeCatch error)
    (fun r a => exists resp, r = Ok resp /\ accounted resp a).
Proof.
  unfold executeCatch. destruct (instanceofZodError error);
    apply appends_ret; eexists; (split; [reflexivity|]); reflexivity.
Qed.

Lemma executeHandler_accounted (E : Env) (reqBodyQuery : JsValue) :
  appends (executeHandler E reqBodyQuery)
    (fun r a => exists resp, r = Ok resp /\ accounted resp a).
Proof.
  unfold executeHandler. apply appends_tryCatch.
  apply appends_bind_frame;
    [apply preserves_liftExc | intros query | intros e;
     apply executeCatch_accounted].
  apply appends_bind_frame;
    [apply preserves_getActive | intros [dbConfig|] | intros e;
     apply executeCatch_accounted].
  - eapply appends_weaken; [|apply executeWithConfig_accounted].
    intros [resp|e] a H.
    + eauto.
    + subst a. apply executeCatch_accounted.
  - apply appends_ret. eexists. split; reflexivity.
Qed.

(** X15. What an execute request does to the store, on every path: it
    leaves the configurations alone and only appends to the history (stored
    attempts are neither changed nor removed); a 200 comes with exactly one
    appended attempt, a success holding the statement, the rows and the row
    count of the answer; a 500 that carries the generated SQL comes with one
    or two appended attempts (two when closing the connection failed after
    the success was logged), the last an error whose message the answer
    repeats; every other answer (400, or 500 with a message only) comes
    with nothing appended. *)
Theorem execute_history_accounting
    (E : Env) (w : World) (reqBodyQuery : JsValue) :
  historyFresh w.(storage) ->
  exists resp added,
    fst (executeHandler E reqBodyQuery w) = Ok resp
    /\ appended added w.(storage)
                (snd (executeHandler E reqBodyQuery w)).(storage)
    /\ accounted resp added.
Proof.
  intros H.
  destruct (executeHandler_accounted E reqBodyQuery w H)
    as (added & App & resp & R & Acc).
  exists resp, added. auto.
Qed.

(** The success scenario on the fresh store: one success entry appended. *)
Lemma execute_history_accounting_witness :
  let E := stubEnv (answerSql "SELECT * FROM t LIMIT 100") pgThreeRows in
  let r := executeHandler E (VString (lit "Show all rows")) (initialWorld E) in
  exists resp added,
    fst r = Ok resp
    /\ JsMap.values (snd r).(storage).(queryHistory) = added
    /\ accounted resp added.
Proof.
  intros E r.
  destruct (execute_history_accounting E (initialWorld E)
              (VString (lit "Show all rows")))
    as (resp & added & R & (_ & V & _) & Acc).
  - apply (proj1 (fresh_new _ _)).
  - exists resp, added. split; [exact R|]. split; [exact V | exact Acc].
Defined.

(* ================================================================= *)
(** * The configuration routes *)

Lemma preserves_storage_configState {A} (m : M A) :
  preserves storage m -> preserves configState m.
Proof. intros H w. unfold configState. now rewrite H. Qed.

Lemma preserves_createQueryHistoryEntry_configState (E : Env)
    (entry : InsertQueryHistory) :
  preserves configState (storage_createQueryHistoryEntry E entry).
Proof. intros w. reflexivity. Qed.

Lemma preserves_clearQueryHistory_configState :
  preserves configState storage_clearQueryHistory.
Proof. intros w. reflexivity. Qed.

#[local] Hint Resolve preserves_storage_configState
  preserves_createQueryHistoryEntry_configState
  preserves_clearQueryHistory_configState : frame.

Lemma preserves_serve_configState (E : Env) (r : Request) :
  preserves configState (serve E r).
Proof.
  destruct r; simpl.
  - unfold executeHandler, executeCatch, executeWithConfig, runGeneratedSql.
    frame.
  - unfold historyHandler. frame.
  - unfold clearHistoryHandler. frame.
  - auto with frame.
Qed.

Lemma saveConfigHandler_unfold (E : Env) (reqBody : ConfigBody) (w : World) :
  saveConfigHandler E reqBody w
  = match insertDatabaseConfigSchema_parse reqBody with
    | Ok configData =>
        let created :=
          createDatabaseConfig w.(storage) configData (E.(clock) w.(reads)) in
        (Ok {| config_status := 200; config_body := CConfig (fst created) |},
         {| storage := snd created; reads := S w.(reads);
            connections := w.(connections); trace := w.(trace) |})
    | Raise error =>
        (Ok {| config_status := 400;
               config_body := CInvalid (lit "Invalid configuration data")
                                       (message error) |}, w)
    end.
Proof.
  unfold saveConfigHandler, tryCatch, bind, liftExc.
  destruct (insertDatabaseConfigSchema_parse reqBody) as [configData|error] eqn:P.
  - reflexivity.
  - assert (Z : instanceofZodError error = true).
    { revert P. unfold insertDatabaseConfigSchema_parse.
      destruct (body_name reqBody), (body_type reqBody),
        (body_connectionString reqBody), (body_isActive reqBody);
        intros P; try discriminate P; now injection P as <-. }
    now rewrite Z.
Qed.

Lemma activeConfigs_app (m m' : JsMap.t DatabaseConfig) :
  activeConfigs (m ++ m') = activeConfigs m ++ activeConfigs m'.
Proof.
  unfold activeConfigs, JsMap.values. now rewrite map_app, filter_app.
Qed.

(** The state of the configurations that the routes maintain. *)
Lemma create_keeps_one_active (st : MemStorage) (config : InsertDatabaseConfig)
    (now : Z) :
  keyed st /\ configsFresh st /\ activeCount st = 1%nat ->
  let st' := snd (createDatabaseConfig st config now) in
  keyed st' /\ configsFresh st' /\ activeCount st' = 1%nat.
Proof.
  intros (K & F & A) st'. subst st'.
  split; [now apply keyed_create|]. split; [now apply configsFresh_create|].
  destruct (truthy (ins_isActive config)) eqn:T.
  - unfold activeCount. now rewrite create_active_only.
  - unfold activeCount, createDatabaseConfig in *. simpl. rewrite T.
    rewrite (JsMap_set_fresh _ _ _ (below_not_In _ _ F)), activeConfigs_app.
    rewrite length_app, A. unfold activeConfigs. simpl.
    destruct (ins_isActive config) as [[|]|]; simpl in *;
      reflexivity || discriminate.
Qed.

Lemma serveApi_keeps_one_active (E : Env) (r : ApiRequest) (w : World) :
  keyed w.(storage) /\ configsFresh w.(storage)
  /\ activeCount w.(storage) = 1%nat ->
  keyed (serveApi E r w).(storage) /\ configsFresh (serveApi E r w).(storage)
  /\ activeCount (serveApi E r w).(storage) = 1%nat.
Proof.
  intros H. destruct r as [r | | reqBody]; simpl.
  - pose proof (preserves_serve_configState E r w) as P.
    unfold configState in P. injection P as Pc Pn.
    unfold keyed, configsFresh, activeCount in *. now rewrite Pc, Pn.
  - exact H.
  - rewrite saveConfigHandler_unfold.
    destruct (insertDatabaseConfigSchema_parse reqBody); [|exact H].
    now apply create_keeps_one_active.
Qed.

(** X16. The routes never call [updateDatabaseConfig], and creating a
    configuration deactivates others only when it activates the new one.
    So after any sequence of requests to any of the routes exactly one
    configuration is active, [getActiveDatabaseConfig] returns it, and the
    no-active-configuration answer of the execute route is never given. *)
Theorem routes_keep_one_active (E : Env) (rs : list ApiRequest) :
  let w := serveApiAll E rs (initialWorld E) in
  activeCount w.(storage) = 1%nat
  /\ (exists dbConfig,
        activeConfigs w.(storage).(databaseConfigs) = [dbConfig]
        /\ getActiveDatabaseConfig w.(storage) = Some dbConfig)
  /\ forall reqBodyQuery : JsValue,
       fst (executeHandler E reqBodyQuery w)
       <> Ok {| status := 400; body := BMessage noActiveConfigurationMessage |}.
Proof.
  intros w.
  assert (I : keyed w.(storage) /\ configsFresh w.(storage)
              /\ activeCount w.(storage) = 1%nat).
  { subst w. unfold serveApiAll.
    assert (I0 : keyed (initialWorld E).(storage)
                 /\ configsFresh (initialWorld E).(storage)
                 /\ activeCount (initialWorld E).(storage) = 1%nat).
    { split; [apply keyed_new|]. split; [apply fresh_new | reflexivity]. }
    revert I0. generalize (initialWorld E).
    induction rs as [|r rs IH]; intros w0 I0; simpl; [exact I0|].
    apply IH. now apply serveApi_keeps_one_active. }
  destruct I as (_ & _ & A). split; [exact A|].
  assert (D : exists dbConfig,
             activeConfigs (databaseConfigs (storage w)) = [dbConfig]).
  { unfold activeCount in A.
    destruct (activeConfigs (databaseConfigs (storage w))) as [|c [|c' l]];
      try discriminate A. now exists c. }
  destruct D as [dbConfig D].
  assert (G : getActiveDatabaseConfig (storage w) = Some dbConfig)
    by now apply find_head_of_filter.
  split; [now exists dbConfig|].
  intros reqBodyQuery.
  now apply (executeHandler_with_active E w reqBodyQuery dbConfig).
Qed.

(** X17. Saving from the settings dialog.  The dialog posts the type and
    the connection string as typed, the name "<TYPE> Connection" and
    [isActive: true].  The route answers 200 with the stored configuration,
    which takes the counter's value as id and is then the only active one:
    the configuration read that follows returns it. *)
Theorem saved_settings_become_active
    (E : Env) (w : World) (databaseType connectionString : jsstring)
    (reqBody : ConfigBody) :
  handleSaveSettings E databaseType connectionString = Mutate reqBody ->
  let r := saveConfigHandler E reqBody w in
  let saved :=
    {| cfg_id := w.(storage).(currentConfigId);
       cfg_name := E.(toUpperCase) databaseType ++ lit " Connection";
       cfg_type := databaseType;
       cfg_connectionString := connectionString;
       cfg_isActive := Some true;
       cfg_createdAt := Some (E.(clock) w.(reads)) |} in
  fst r = Ok {| config_status := 200; config_body := CConfig saved |}
  /\ activeConfigs (snd r).(storage).(databaseConfigs) = [saved]
  /\ configsHandler (snd r)
     = (Ok {| config_status := 200;
              config_body := CActiveConfig (Some saved) |}, snd r).
Proof.
  intros H r saved. unfold handleSaveSettings in H.
  destruct (isEmpty (trim connectionString)); [discriminate H|].
  injection H as H. subst reqBody r.
  rewrite saveConfigHandler_unfold. cbn [insertDatabaseConfigSchema_parse
    body_name body_type body_connectionString body_isActive].
  cbv zeta. cbn [fst snd storage].
  set (config := {| ins_name := toUpperCase E databaseType ++ lit " Connection";
                    ins_type := databaseType;
                    ins_connectionString := connectionString;
                    ins_isActive := Some true |}).
  pose proof (create_active_only (storage w) config (clock E (reads w)) eq_refl)
    as A.
  change (fst (createDatabaseConfig (storage w) config (clock E (reads w))))
    with saved in *.
  split; [reflexivity|]. split; [exact A|].
  assert (G : getActiveDatabaseConfig
                (snd (createDatabaseConfig (storage w) config (clock E (reads w))))
              = Some saved)
    by (apply find_head_of_filter; exact A).
  unfold configsHandler, tryCatch, bind, storage_getActiveDatabaseConfig, ret.
  cbn [storage]. now rewrite G.
Qed.

(** Saving a SQL Server connection over the default configuration. *)
Lemma saved_settings_become_active_witness :
  let E := stubEnv (answerSql "SELECT 1") pgThreeRows in
  let r :=
    saveConfigHandler E
      {| body_name := VString (lit "SQLSERVER Connection");
         body_type := VString (lit "sqlserver");
         body_connectionString := VString (lit "Server=db;Database=r");
         body_isActive := VBool true |} (initialWorld E) in
  map cfg_id (activeConfigs (snd r).(storage).(databaseConfigs)) = [2].
Proof.
  intros E r. subst r.
  destruct (saved_settings_become_active E (initialWorld E) (lit "sqlserver")
              (lit "Server=db;Database=r")
              {| body_name := VString (lit "SQLSERVER Connection");
                 body_type := VString (lit "sqlserver");
                 body_connectionString := VString (lit "Server=db;Database=r");
                 body_isActive := VBool true |} eq_refl) as (_ & -> & _).
  reflexivity.
Defined.

(** X18. Activating a configuration changes nothing of the others but
    their flag: after a create or an update with [isActive] true, every
    other stored configuration is found under its id with the same name,
    type, connection string and creation time, and [isActive] false.  An
    update that does not activate leaves the others untouched. *)
Theorem activation_changes_only_flags :
  (forall (st : MemStorage) (config : InsertDatabaseConfig) (now id : Z)
          (c : DatabaseConfig),
      truthy config.(ins_isActive) = true ->
      id <> st.(currentConfigId) ->
      getDatabaseConfig st id = Some c ->
      getDatabaseConfig (snd (createDatabaseConfig st config now)) id
      = Some (setInactive c))
  /\ (forall (st : MemStorage) (id id' : Z) (config : PartialInsertDatabaseConfig)
             (existing c : DatabaseConfig),
        keyed st ->
        getDatabaseConfig st id = Some existing ->
        id' <> id ->
        getDatabaseConfig st id' = Some c ->
        getDatabaseConfig (snd (updateDatabaseConfig st id config)) id'
        = Some (if truthy (nullish config.(part_isActive) None)
                then setInactive c else c)).
Proof.
  split.
  - intros st config now id c T N G.
    unfold getDatabaseConfig, createDatabaseConfig in *. simpl. rewrite T.
    rewrite JsMap_get_set_other by exact N.
    rewrite JsMap_get_mutate, G. reflexivity.
  - intros st id id' config existing c [D F] G N G'.
    unfold getDatabaseConfig, updateDatabaseConfig in *. rewrite G. simpl.
    rewrite JsMap_get_set_other by exact N.
    destruct (truthy (nullish (part_isActive config) None)); [|exact G'].
    rewrite JsMap_get_mutate, G'. simpl.
    assert (Hid : cfg_id c = id').
    { apply JsMap_get_In in G'. rewrite Forall_forall in F. exact (F _ G'). }
    rewrite Hid. destruct (Z.eqb_spec id' id); [contradiction | reflexivity].
Qed.

(** Activating the second configuration deactivates the default one and
    keeps its name. *)
Lemma activation_changes_only_flags_witness :
  option_map (fun c => (c.(cfg_name), c.(cfg_isActive)))
    (getDatabaseConfig
       (snd (updateDatabaseConfig storeTwoConfigs 2 activatePatch)) 1)
  = Some (lit "Default PostgreSQL", Some false).
Proof.
  destruct activation_changes_only_flags as [_ U].
  rewrite (U storeTwoConfigs 2 1 activatePatch
             (fst (createDatabaseConfig (MemStorage_new None 0) inactiveInput 5))
             {| cfg_id := 1; cfg_name := lit "Default PostgreSQL";
                cfg_type := lit "postgresql";
                cfg_connectionString := lit "postgresql://localhost:5432/sample";
                cfg_isActive := Some true; cfg_createdAt := Some 0 |}).
  - reflexivity.
  - split; simpl.
    + repeat constructor; simpl; intuition discriminate.
    + repeat constructor.
  - reflexivity.
  - discriminate.
  - reflexivity.
Defined.

(** ** POST /api/database/test, its connection *)

Lemma createConnection_cases (E : Env) (type connectionString : JsValue) (w : World) :
  (exists e, instanceofError e = true
             /\ createConnection E type connectionString w = (Raise e, w))
  \/ (exists kind,
        createConnection E type connectionString w
        = (Ok (List.length w.(connections)),
           {| storage := w.(storage); reads := w.(reads);
              connections :=
                w.(connections)
                ++ [{| conn_kind := kind;
                       conn_connectionString := connectionString;
                       conn_pool := false |}];
              trace :=
                w.(trace) ++ [EvCreateConnection (List.length w.(connections)) kind]
           |})).
Proof.
  unfold createConnection, SQLServerConnection_new, PostgreSQLConnection_new,
    newConnection, raise.
  destruct type; try (left; eexists; split; [|reflexivity]; reflexivity).
  destruct (jsstring_eqb _ (lit "sqlserver")).
  - destruct connectionString;
      try (left; eexists; split; [|reflexivity]; reflexivity).
    right. now exists SQLServer.
  - destruct (jsstring_eqb _ (lit "postgresql")).
    + right. now exists PostgreSQL.
    + left. eexists; split; [|reflexivity]; reflexivity.
Qed.

Lemma close_trace (E : Env) (w : World) (h : nat) :
  (snd (close E h w)).(trace) = w.(trace) ++ [EvClose h].
Proof.
  rewrite close_unfold. cbv zeta.
  destruct (poolAt (connections w) h); [|reflexivity].
  now destruct (match kindAt (connections w) h with
                | SQLServer => mssql_close E h
                | PostgreSQL => pg_end E h
                end).
Qed.

Ltac answered R := cbn [fst] in R; injection R; intros; subst.

(** X19. The connection test never leaves its connection unclosed: either
    no connection object is created (a field is missing, or the factory
    refuses the type), or exactly one is created, tested and then closed,
    in this order, whatever the test found.  The success flag is true only
    in a 200 answer. *)
Theorem connection_test_closes_its_connection
    (E : Env) (w : World) (type connectionString : JsValue) :
  let r := testHandler E type connectionString w in
  let h := List.length w.(connections) in
  ((snd r).(trace) = w.(trace)
   \/ exists kind,
        (snd r).(trace)
        = w.(trace)
          ++ [EvCreateConnection h kind; EvTestConnection h; EvClose h])
  /\ forall resp, fst r = Ok resp ->
       body_success resp.(body) = Some true -> resp.(status) = 200.
Proof.
  intros r h. subst r.
  enough (H : exists resp w',
             testHandler E type connectionString w = (Ok resp, w')
             /\ (trace w' = trace w
                 \/ exists kind,
                      trace w'
                      = trace w
                        ++ [EvCreateConnection h kind; EvTestConnection h;
                            EvClose h])
             /\ (body_success (body resp) = Some true -> status resp = 200)).
  { destruct H as (resp & w' & -> & T & S). split; [exact T|].
    intros resp' R. answered R. auto. }
  unfold testHandler, tryCatch.
  destruct (negb (ToBoolean type) || negb (ToBoolean connectionString)).
  { do 2 eexists. split; [reflexivity|]. split; [now left | discriminate]. }
  unfold bind at 1.
  destruct (createConnection_cases E type connectionString w)
    as [(e & Ie & ->) | (kind & ->)].
  { do 2 eexists. split; [reflexivity|]. split; [now left | discriminate]. }
  fold h.
  set (w1 := {| storage := storage w; reads := reads w;
                connections := _; trace := trace w ++ [EvCreateConnection h kind] |}).
  unfold bind at 1.
  pose proof (testConnection_result E w1 h) as T.
  pose proof (testConnection_trace E w1 h) as Tt.
  destruct (testConnection E h w1) as [r2 w2]. cbn [fst snd] in T, Tt.
  rewrite T. clear T.
  set (isConnected := match kindAt (connections w1) h with
                      | SQLServer => _ | PostgreSQL => _ end).
  unfold bind at 1.
  pose proof (close_trace E w2 h) as Ct.
  assert (Tr : trace (snd (close E h w2))
               = trace w ++ [EvCreateConnection h kind; EvTestConnection h;
                             EvClose h]).
  { rewrite Ct, Tt. subst w1. cbn [trace]. now rewrite <- !app_assoc. }
  destruct (close E h w2) as [[[]|e] w3]; cbn [fst snd] in Tr.
  - destruct isConnected; do 2 eexists; (split; [reflexivity|]);
      (split; [right; now exists kind|]); [reflexivity | discriminate].
  - do 2 eexists. split; [reflexivity|].
    split; [right; now exists kind | discriminate].
Qed.

(* ================================================================= *)
(** * The connection string of SQL Server and the registry *)

Lemma startsWith_app (key rest : jsstring) : startsWith (key ++ rest) key = true.
Proof. apply startsWith_begins_with. now exists rest. Qed.

Lemma skipn_key (key rest : jsstring) : skipn (List.length key) (key ++ rest) = rest.
Proof. induction key; simpl; auto. Qed.

Lemma untilSemicolon_spec (s : jsstring) :
  ~ In 59%N (untilSemicolon s)
  /\ exists post,
       s = untilSemicolon s ++ post
       /\ (post = [] \/ exists post', post = 59%N :: post').
Proof.
  induction s as [|c s (N & post & H & P)]; simpl.
  - split; [tauto|]. exists []. auto.
  - destruct (N.eqb_spec c 59) as [->|Nc].
    + split; [tauto|]. exists (59%N :: s). split; [reflexivity|]. right. eauto.
    + split.
      * simpl. intros [Hc|Hin]; [now apply Nc | now apply N].
      * exists post. split; [simpl; now rewrite <- H | exact P].
Qed.

Lemma untilSemicolon_run (v rest : jsstring) :
  ~ In 59%N v ->
  rest = [] \/ (exists rest', rest = 59%N :: rest') ->
  untilSemicolon (v ++ rest) = v.
Proof.
  intros N R. induction v as [|c v IH]; simpl.
  - destruct R as [->|(rest' & ->)]; reflexivity.
  - destruct (N.eqb_spec c 59) as [->|Nc]; [exfalso; apply N; now left|].
    f_equal. apply IH. intros H. apply N. now right.
Qed.

Lemma matchAfter_cons (key : jsstring) (c : N) (s : jsstring) :
  matchAfter key (c :: s)
  = if startsWith (c :: s) key
    then match untilSemicolon (skipn (List.length key) (c :: s)) with
         | [] => matchAfter key s
         | group => Some group
         end
    else matchAfter key s.
Proof.
  cbn [matchAfter]. destruct (startsWith (c :: s) key); [|reflexivity].
  now destruct (untilSemicolon (skipn (List.length key) (c :: s))).
Qed.

Lemma matchAfter_sound (key s group : jsstring) :
  matchAfter key s = Some group ->
  group <> []
  /\ ~ In 59%N group
  /\ exists before after,
       s = before ++ key ++ group ++ after
       /\ (after = [] \/ exists after', after = 59%N :: after').
Proof.
  induction s as [|c s IH].
  - cbn [matchAfter]. destruct (startsWith [] key) eqn:S; [|discriminate].
    destruct (untilSemicolon (skipn (List.length key) [])) eqn:U; [discriminate|].
    rewrite skipn_nil in U. discriminate U.
  - rewrite matchAfter_cons.
    assert (Later : matchAfter key s = Some group ->
                    group <> [] /\ ~ In 59%N group
                    /\ exists before after,
                         c :: s = before ++ key ++ group ++ after
                         /\ (after = [] \/ exists after', after = 59%N :: after')).
    { intros H. destruct (IH H) as (N & S & before & after & -> & A).
      split; [exact N|]. split; [exact S|]. now exists (c :: before), after. }
    destruct (startsWith (c :: s) key) eqn:S; [|exact Later].
    apply startsWith_begins_with in S. destruct S as [rest S].
    rewrite S, skipn_key.
    destruct (untilSemicolon_spec rest) as (N & after & R & A).
    destruct (untilSemicolon rest) as [|g gs] eqn:U; [rewrite <- S; exact Later|].
    intros H. injection H as <-. split; [discriminate|]. split; [exact N|].
    exists [], after. split; [|exact A]. change ([] ++ key ++ (g :: gs) ++ after) with (key ++ (g :: gs) ++ after). f_equal. exact R.
Qed.

Lemma matchAfter_needs_key (key s : jsstring) :
  includes s key = false -> matchAfter key s = None.
Proof.
  intros I. destruct (matchAfter key s) as [group|] eqn:M; [|reflexivity].
  destruct (matchAfter_sound _ _ _ M) as (_ & _ & before & after & -> & _).
  now rewrite includes_infix in I.
Qed.

Lemma matchAfter_at_start (key group rest : jsstring) :
  group <> [] -> ~ In 59%N group ->
  rest = [] \/ (exists rest', rest = 59%N :: rest') ->
  matchAfter key (key ++ group ++ rest) = Some group.
Proof.
  intros N S R.
  assert (U : untilSemicolon (skipn (List.length key) (key ++ group ++ rest))
              = group)
    by (rewrite skipn_key; now apply untilSemicolon_run).
  destruct (key ++ group ++ rest) as [|c s] eqn:T.
  - destruct key; [|discriminate T]. destruct group; [contradiction | discriminate T].
  - rewrite matchAfter_cons, U, <- T, startsWith_app.
    destruct group; [contradiction | reflexivity].
Qed.

(** X20. What the constructor of [SQLServerConnection] reads from its
    connection string.  A group that one of its patterns captures is never
    empty, holds no ';', stands in the string right after the key and ends
    at a ';' or at the end of the string.  The server is the text between a
    leading "Server=" and the next ';'; it is "localhost", and the database
    "", when the key does not occur.  With "Integrated Security=true"
    anywhere in the string the credentials are dropped. *)
Theorem connection_string_parsing (connectionString : jsstring) :
  let config := SQLServerConnection_config connectionString in
  (forall key group,
      matchAfter key connectionString = Some group ->
      group <> [] /\ ~ In 59%N group
      /\ exists before after,
           connectionString = before ++ key ++ group ++ after
           /\ (after = [] \/ exists after', after = 59%N :: after'))
  /\ (forall name rest,
        name <> [] -> ~ In 59%N name ->
        connectionString = lit "Server=" ++ name ++ 59%N :: rest ->
        config.(server) = name)
  /\ (includes connectionString (lit "Server=") = false ->
      config.(server) = lit "localhost")
  /\ (includes connectionString (lit "Database=") = false ->
      config.(database) = [])
  /\ (includes connectionString (lit "Integrated Security=true") = true ->
      config.(user) = None /\ config.(password) = None).
Proof.
  intros config. split; [intros key group; apply matchAfter_sound|].
  subst config. unfold SQLServerConnection_config. cbn [server database user password].
  split; [|split; [|split]].
  - intros name rest N S ->.
    rewrite (matchAfter_at_start (lit "Server=") name (59%N :: rest)); eauto.
  - intros I. now rewrite matchAfter_needs_key.
  - intros I. now rewrite matchAfter_needs_key.
  - intros ->. now split.
Qed.

(** The placeholder of the settings dialog. *)
Lemma connection_string_parsing_witness :
  let config :=
    SQLServerConnection_config
      (lit "Server=localhost;Database=mydb;Integrated Security=true;") in
  config.(server) = lit "localhost" /\ config.(user) = None.
Proof.
  intros config.
  destruct (connection_string_parsing
              (lit "Server=localhost;Database=mydb;Integrated Security=true;"))
    as (_ & S & _ & _ & I).
  split.
  - apply (S (lit "localhost") (lit "Database=mydb;Integrated Security=true;"));
      [discriminate | | reflexivity].
    vm_compute. intuition discriminate.
  - apply I. reflexivity.
Defined.

Lemma jsstring_eqb_same (a : jsstring) : jsstring_eqb a a = true.
Proof.
  unfold jsstring_eqb. destruct (list_eq_dec N.eq_dec a a); congruence.
Qed.

Lemma registry_set_registers (reg : Registry) (connectionId : jsstring) (c : nat) :
  In c (map snd (registry_set reg connectionId c))
  /\ registry_get (registry_set reg connectionId c) connectionId = Some c.
Proof.
  induction reg as [|[k c'] reg [IH1 IH2]]; simpl.
  - rewrite jsstring_eqb_same. auto.
  - destruct (jsstring_eqb k connectionId) eqn:K; simpl.
    + rewrite jsstring_eqb_same. auto.
    + rewrite K. auto.
Qed.

Lemma close_storage (E : Env) (w : World) (h : nat) :
  (snd (close E h w)).(storage) = w.(storage).
Proof.
  rewrite close_unfold. cbv zeta.
  destruct (poolAt (connections w) h); [|reflexivity].
  now destruct (match kindAt (connections w) h with
                | SQLServer => mssql_close E h
                | PostgreSQL => pg_end E h
                end).
Qed.

Lemma close_opens_no_pool (E : Env) (w : World) (h h' : nat) :
  poolAt w.(connections) h' = false ->
  poolAt (snd (close E h w)).(connections) h' = false.
Proof.
  intros P. rewrite close_unfold. cbv zeta.
  destruct (poolAt (connections w) h); [|exact P].
  destruct (match kindAt (connections w) h with
            | SQLServer => mssql_close E h
            | PostgreSQL => pg_end E h
            end); [|exact P].
  step. destruct (Nat.eq_dec h' h) as [->|N].
  - rewrite poolAt_setPoolAt_same. now destruct (_ <? _)%nat.
  - now rewrite poolAt_setPoolAt_other.
Qed.

Lemma close_closes (E : Env) (w : World) (h : nat) :
  fst (close E h w) = Ok tt ->
  poolAt (snd (close E h w)).(connections) h = false.
Proof.
  rewrite close_unfold. cbv zeta.
  destruct (poolAt (connections w) h) eqn:P; [|intros _; exact P].
  destruct (match kindAt (connections w) h with
            | SQLServer => mssql_close E h
            | PostgreSQL => pg_end E h
            end); [|discriminate].
  intros _. step. rewrite poolAt_setPoolAt_same. now destruct (_ <? _)%nat.
Qed.

Lemma closeEach_cons (E : Env) (h : nat) (rest : list nat) (w : World) :
  closeEach E (h :: rest) w
  = match fst (close E h w) with
    | Ok _ => closeEach E rest (snd (close E h w))
    | Raise e => (Raise e, snd (close E h w))
    end.
Proof.
  cbn [closeEach]. unfold bind. now destruct (close E h w) as [[[]|e] w1].
Qed.

Lemma closeEach_outcome (E : Env) (hs : list nat) (w : World) :
  (snd (closeEach E hs w)).(storage) = w.(storage)
  /\ (forall h, poolAt w.(connections) h = false ->
                poolAt (snd (closeEach E hs w)).(connections) h = false)
  /\ match fst (closeEach E hs w) with
     | Ok _ =>
         (snd (closeEach E hs w)).(trace) = w.(trace) ++ map EvClose hs
         /\ Forall (fun h => poolAt (snd (closeEach E hs w)).(connections) h = false)
                   hs
     | Raise _ =>
         exists k,
           (k < List.length hs)%nat
           /\ (snd (closeEach E hs w)).(trace)
              = w.(trace) ++ map EvClose (firstn (S k) hs)
     end.
Proof.
  revert w. induction hs as [|h hs IH]; intros w.
  - cbn. rewrite app_nil_r. auto.
  - rewrite closeEach_cons.
    pose proof (close_storage E w h) as St.
    pose proof (close_trace E w h) as T.
    pose proof (close_opens_no_pool E w h) as O.
    pose proof (close_closes E w h) as C.
    destruct (fst (close E h w)) as [[]|e].
    + destruct (IH (snd (close E h w))) as (St' & O' & R).
      split; [congruence|]. split; [auto|].
      destruct (fst (closeEach E hs (snd (close E h w)))).
      * destruct R as [T' F]. split.
        -- rewrite T', T, <- app_assoc. reflexivity.
        -- constructor; [apply O'; auto | exact F].
      * destruct R as (k & L & T'). exists (S k). split; [simpl; lia|].
        rewrite T', T, <- app_assoc. reflexivity.
    + cbn [fst snd]. split; [exact St|]. split; [exact O|].
      exists 0%nat. split; [simpl; lia | exact T].
Qed.

(** X21. [DatabaseManager.closeAllConnections] closes the registered
    connections in the order of the registry and leaves storage alone.
    When every [close] succeeds the registry is emptied, so that no
    identifier finds a connection, and every connection has a null pool.
    When a [close] throws, the loop stops there: the connections after it
    are not closed. *)
Theorem closeAllConnections_outcome (E : Env) (reg : Registry) (w : World) :
  let r := closeAllConnections E reg w in
  (snd r).(storage) = w.(storage)
  /\ match fst r with
     | Ok reg' =>
         (forall connectionId, getConnection reg' connectionId = None)
         /\ (snd r).(trace) = w.(trace) ++ map EvClose (map snd reg)
         /\ Forall (fun h => poolAt (snd r).(connections) h = false)
                   (map snd reg)
     | Raise _ =>
         exists k,
           (k < List.length reg)%nat
           /\ (snd r).(trace)
              = w.(trace) ++ map EvClose (firstn (S k) (map snd reg))
     end.
Proof.
  intros r. subst r. unfold closeAllConnections, bind.
  destruct (closeEach_outcome E (map snd reg) w) as (S & _ & R).
  destruct (closeEach E (map snd reg) w) as [[[]|e] w1]; cbn [fst snd ret] in *.
  - split; [exact S|]. split; [reflexivity | exact R].
  - split; [exact S|]. destruct R as (k & L & T). exists k.
    rewrite length_map in L. auto.
Qed.

(** X22. A connection registered with [setConnection] is found again under
    its identifier, and is closed by a [closeAllConnections] that
    succeeds. *)
Theorem registered_connection_is_closed (E : Env) (reg : Registry)
    (connectionId : jsstring) (connection : nat) (w : World) :
  let reg1 := setConnection reg connectionId connection in
  getConnection reg1 connectionId = Some connection
  /\ (succeeds (fst (closeAllConnections E reg1 w)) = true ->
      poolAt (snd (closeAllConnections E reg1 w)).(connections) connection
      = false).
Proof.
  intros reg1. subst reg1. unfold getConnection, setConnection.
  destruct (registry_set_registers reg connectionId connection) as [I G].
  split; [exact G|].
  unfold closeAllConnections, bind.
  destruct (closeEach_outcome E (map snd (registry_set reg connectionId connection)) w)
    as (_ & _ & R).
  destruct (closeEach E (map snd (registry_set reg connectionId connection)) w)
    as [[[]|e] w1]; cbn [fst snd ret succeeds] in *; [|discriminate].
  intros _. destruct R as [_ F]. rewrite Forall_forall in F. now apply F.
Qed.

(** A PostgreSQL connection with a pool, registered and then closed. *)
Lemma registered_connection_is_closed_witness :
  poolAt
    (snd (closeAllConnections (stubEnv (answerSql "SELECT 1") pgThreeRows)
            (setConnection [] (lit "default") 0%nat)
            (snd (executeQuery (stubEnv (answerSql "SELECT 1") pgThreeRows) 0%nat (lit "SELECT 1")
                    (worldWithConnection PostgreSQL))))).(connections) 0%nat
  = false.
Proof.
  apply (registered_connection_is_closed (stubEnv (answerSql "SELECT 1") pgThreeRows) [] (lit "default") 0%nat
           (snd (executeQuery (stubEnv (answerSql "SELECT 1") pgThreeRows) 0%nat (lit "SELECT 1")
                   (worldWithConnection PostgreSQL)))).
  reflexivity.
Defined.

(* ================================================================= *)
(** * The settings dialog and the connection test *)

(** X23. A click on "Test Connection" that is not stopped by the toast
    sends a body that passes the check of the route: with one of the two
    types of the select, a connection is created, tested and closed, and
    the answer carries a success flag, true with status 200 and false with
    400 or 500; the answer "Database type and connection string are
    required" is never given. *)
Theorem dialog_test_reaches_the_driver (E : Env) (w : World)
    (databaseType connectionString : jsstring) (type cs : JsValue) :
  handleTestConnection databaseType connectionString = Mutate (type, cs) ->
  databaseType <> [] ->
  jsstring_eqb (E.(toLowerCase) databaseType) (lit "sqlserver")
  || jsstring_eqb (E.(toLowerCase) databaseType) (lit "postgresql") = true ->
  let r := testHandler E type cs w in
  let h := List.length w.(connections) in
  (exists kind,
      (snd r).(trace)
      = w.(trace) ++ [EvCreateConnection h kind; EvTestConnection h; EvClose h])
  /\ exists resp success message,
       fst r = Ok resp
       /\ resp.(body) = BTest success message
       /\ (resp.(status) = 200 /\ success = true
           \/ (resp.(status) = 400 \/ resp.(status) = 500) /\ success = false).
Proof.
  intros H N T r h. subst r. unfold handleTestConnection in H.
  destruct (isEmpty (trim connectionString)) eqn:Em; [discriminate H|].
  injection H as <- <-.
  assert (Nc : connectionString <> []).
  { intros ->. rewrite trim_nil in Em. discriminate Em. }
  enough (G : exists resp w' kind success message,
             testHandler E (VString databaseType) (VString connectionString) w
             = (Ok resp, w')
             /\ trace w'
                = trace w
                  ++ [EvCreateConnection h kind; EvTestConnection h; EvClose h]
             /\ body resp = BTest success message
             /\ (status resp = 200 /\ success = true
                 \/ (status resp = 400 \/ status resp = 500) /\ success = false)).
  { destruct G as (resp & w' & kind & success & message & -> & Tr & B & S).
    split; [now exists kind|]. now exists resp, success, message. }
  unfold testHandler, tryCatch.
  replace (negb (ToBoolean (VString databaseType))
           || negb (ToBoolean (VString connectionString))) with false
    by (destruct databaseType, connectionString; try reflexivity; contradiction).
  unfold bind at 1.
  assert (C : exists kind,
             createConnection E (VString databaseType) (VString connectionString) w
             = (Ok h,
                {| storage := storage w; reads := reads w;
                   connections :=
                     connections w
                     ++ [{| conn_kind := kind;
                            conn_connectionString := VString connectionString;
                            conn_pool := false |}];
                   trace := trace w ++ [EvCreateConnection h kind] |})).
  { unfold createConnection, SQLServerConnection_new, PostgreSQLConnection_new,
      newConnection.
    destruct (jsstring_eqb (toLowerCase E databaseType) (lit "sqlserver"));
      [now exists SQLServer|].
    cbn [orb] in T. rewrite T. now exists PostgreSQL. }
  destruct C as [kind ->].
  set (w1 := {| storage := storage w; reads := reads w;
                connections := _; trace := trace w ++ [EvCreateConnection h kind] |}).
  unfold bind at 1.
  pose proof (testConnection_result E w1 h) as R.
  pose proof (testConnection_trace E w1 h) as Tt.
  destruct (testConnection E h w1) as [r2 w2]. cbn [fst snd] in R, Tt.
  rewrite R. clear R.
  set (isConnected := match kindAt (connections w1) h with
                      | SQLServer => _ | PostgreSQL => _ end).
  unfold bind at 1.
  pose proof (close_trace E w2 h) as Ct.
  assert (Tr : trace (snd (close E h w2))
               = trace w ++ [EvCreateConnection h kind; EvTestConnection h;
                             EvClose h]).
  { rewrite Ct, Tt. subst w1. cbn [trace]. now rewrite <- !app_assoc. }
  destruct (close E h w2) as [[[]|e] w3]; cbn [fst snd] in Tr.
  - destruct isConnected; do 2 eexists; exists kind; do 2 eexists;
      (split; [reflexivity|]); (split; [exact Tr|]);
      (split; [reflexivity|]); cbn [status]; auto.
  - do 2 eexists. exists kind. do 2 eexists.
    split; [reflexivity|]. split; [exact Tr|]. split; [reflexivity|].
    cbn [status]. auto.
Qed.

(** The dialog as it opens, with a PostgreSQL connection string typed in. *)
Lemma dialog_test_reaches_the_driver_witness :
  let E := stubEnv (answerSql "SELECT 1") pgThreeRows in
  exists kind,
    (snd (testHandler E (VString (lit "postgresql"))
            (VString (lit "postgresql://localhost:5432/sample"))
            (initialWorld E))).(trace)
    = [EvCreateConnection 0 kind; EvTestConnection 0; EvClose 0].
Proof.
  intros E.
  destruct (dialog_test_reaches_the_driver E (initialWorld E)
              (lit "postgresql") (lit "postgresql://localhost:5432/sample")
              (VString (lit "postgresql"))
              (VString (lit "postgresql://localhost:5432/sample")))
    as [K _]; [reflexivity | discriminate | reflexivity | exact K].
Defined.
